(** * py_eddy_tracker.grid : windows, padding, staggering and geostrophic velocity

    A shallow embedding of [PyEddyTracker] (src/py_eddy_tracker/grid/__init__.py).

    - Python integers are [Z]; [None] is [option].
    - A numpy array is a shape with its row-major data.
    - A Python exception is an [Err] result carrying the exception's kind.
    - A float is a real number or one of the special values inf, -inf and nan:
      finite arithmetic is exact (neither rounding nor overflow), the special
      values follow IEEE 754, and the sign of zero is not kept (x / 0 is inf
      for x > 0).
    - Where a property turns on rounding, [haversine_dist] is also given in
      binary64 (module [B64]), on the primitive floats of the Standard
      Library.
    - The object's attributes are passed explicitly, grouped by the method
      that writes them. *)

From Stdlib Require Import ZArith List Bool Lia Arith Reals Lra.
From Stdlib Require Floats.
Import ListNotations.

(** ** Exceptions *)

Inductive exn : Type :=
| AssertionError
| ValueError
| IndexError
| TypeError
| MaskError.

Inductive result (A : Type) : Type :=
| Ok (a : A)
| Err (e : exn).
Arguments Ok {A} a.
Arguments Err {A} e.

Definition bind {A B : Type} (r : result A) (k : A -> result B) : result B :=
  match r with
  | Ok a => k a
  | Err e => Err e
  end.

Notation "x <- r ;; k" := (bind r (fun x => k))
  (at level 61, r at next level, right associativity).

(** The exceptions that numpy raises on arrays of unfit shapes. *)
Definition raised_by_numpy (e : exn) : Prop :=
  e = ValueError \/ e = IndexError \/ e = MaskError.

(** ** Python slices *)

Module Slice.
Local Open Scope Z_scope.

(** [slice(start, stop)], the step being [None] everywhere in the source. *)
Record t : Type := mk { start : option Z; stop : option Z }.

(** [slice(None)] *)
Definition all : t := mk None None.

(** One bound of [slice.indices(len)]: a negative bound counts from the end,
    and the outcome is clipped to [0, len]. *)
Definition adjust (bound len : Z) : Z :=
  if bound <? 0 then Z.max 0 (bound + len) else Z.min bound len.

(** [slice.indices(len)] without the step. *)
Definition indices (s : t) (len : Z) : Z * Z :=
  (match start s with None => 0 | Some a => adjust a len end,
   match stop s with None => len | Some b => adjust b len end).

(** The number of indices selected by [s] on an axis of length [len]: the
    extent of [a[s]] along that axis. *)
Definition length (s : t) (len : Z) : Z :=
  let '(a, b) := indices s len in Z.max 0 (b - a).

End Slice.

(** ** Floats *)

Inductive npfloat : Type :=
| Fin (r : R)
| PInf
| NInf
| NaN.

Module F.
Local Open Scope R_scope.

Definition sign_inf (positive : bool) : npfloat := if positive then PInf else NInf.

(** The infinity (or nan) that a finite [r] makes of an infinity. *)
Definition scale_inf (r : R) (positive : bool) : npfloat :=
  if Rlt_dec 0 r then sign_inf positive
  else if Rlt_dec r 0 then sign_inf (negb positive)
  else NaN.

Definition neg (x : npfloat) : npfloat :=
  match x with
  | Fin r => Fin (- r)
  | PInf => NInf
  | NInf => PInf
  | NaN => NaN
  end.

Definition add (x y : npfloat) : npfloat :=
  match x, y with
  | NaN, _ | _, NaN => NaN
  | Fin a, Fin b => Fin (a + b)
  | PInf, NInf | NInf, PInf => NaN
  | PInf, _ | _, PInf => PInf
  | NInf, _ | _, NInf => NInf
  end.

Definition sub (x y : npfloat) : npfloat := add x (neg y).

Definition mul (x y : npfloat) : npfloat :=
  match x, y with
  | NaN, _ | _, NaN => NaN
  | Fin a, Fin b => Fin (a * b)
  | Fin a, PInf | PInf, Fin a => scale_inf a true
  | Fin a, NInf | NInf, Fin a => scale_inf a false
  | PInf, PInf | NInf, NInf => PInf
  | PInf, NInf | NInf, PInf => NInf
  end.

Definition div (x y : npfloat) : npfloat :=
  match x, y with
  | NaN, _ | _, NaN => NaN
  | Fin a, Fin b => if Req_dec_T b 0 then scale_inf a true else Fin (a / b)
  | Fin _, _ => Fin 0
  | PInf, Fin b => if Rlt_dec b 0 then NInf else PInf
  | NInf, Fin b => if Rlt_dec b 0 then PInf else NInf
  | _, _ => NaN
  end.

(** [np.reciprocal] *)
Definition reciprocal (x : npfloat) : npfloat := div (Fin 1) x.

(** [np.sqrt]: nan below zero. *)
Definition sqrt (x : npfloat) : npfloat :=
  match x with
  | Fin r => if Rlt_dec r 0 then NaN else Fin (R_sqrt.sqrt r)
  | PInf => PInf
  | _ => NaN
  end.

Definition sin (x : npfloat) : npfloat :=
  match x with Fin r => Fin (Rtrigo_def.sin r) | _ => NaN end.

Definition cos (x : npfloat) : npfloat :=
  match x with Fin r => Fin (Rtrigo_def.cos r) | _ => NaN end.

(** [np.deg2rad] *)
Definition deg2rad (x : npfloat) : npfloat := mul x (Fin (PI / 180)).

(** [x ** 2] *)
Definition square (x : npfloat) : npfloat := mul x x.

(** The angle of the point [(x, y)], in (-pi, pi]. *)
Definition atan2R (y x : R) : R :=
  if Rlt_dec 0 x then atan (y / x)
  else if Rlt_dec x 0 then
    if Rlt_dec y 0 then atan (y / x) - PI else atan (y / x) + PI
  else if Rlt_dec 0 y then PI / 2
  else if Rlt_dec y 0 then - PI / 2
  else 0.

(** [np.arctan2] *)
Definition arctan2 (y x : npfloat) : npfloat :=
  match y, x with
  | NaN, _ | _, NaN => NaN
  | Fin a, Fin b => Fin (atan2R a b)
  | Fin a, PInf => Fin 0
  | Fin a, NInf => if Rlt_dec a 0 then Fin (- PI) else Fin PI
  | PInf, Fin _ => Fin (PI / 2)
  | NInf, Fin _ => Fin (- PI / 2)
  | PInf, PInf => Fin (PI / 4)
  | PInf, NInf => Fin (3 * PI / 4)
  | NInf, PInf => Fin (- PI / 4)
  | NInf, NInf => Fin (- 3 * PI / 4)
  end.

Definition is_finite (x : npfloat) : Prop :=
  match x with Fin _ => True | _ => False end.

(** Zero or nan: what is left of a zero once it is multiplied or added. *)
Definition zero_or_nan (x : npfloat) : Prop := x = Fin 0 \/ x = NaN.

(** A number or nan, but no infinity. *)
Definition not_inf (x : npfloat) : Prop :=
  match x with Fin _ | NaN => True | _ => False end.

End F.

(** ** numpy arrays *)

Record ndarray (A : Type) : Type := mkarr { shape : list nat; data : list A }.
Arguments mkarr {A} shape data.
Arguments shape {A} n.
Arguments data {A} n.

Module Np.

Section Generic.
Context {A : Type}.

Definition ndim (a : ndarray A) : nat := length (shape a).

(** Number of elements of an array of shape [s]. *)
Definition size_of (s : list nat) : nat := fold_right Nat.mul 1 s.

(** The data holds one element per index. *)
Definition wf (a : ndarray A) : Prop := length (data a) = size_of (shape a).

Definition full (s : list nat) (x : A) : ndarray A := mkarr s (repeat x (size_of s)).

(** [a.squeeze()]: the axes of length one are dropped. *)
Definition squeeze (a : ndarray A) : ndarray A :=
  mkarr (filter (fun d => negb (d =? 1)) (shape a)) (data a).

(** [n] consecutive blocks of [k] elements. *)
Fixpoint chunks (n k : nat) (d : list A) : list (list A) :=
  match n with
  | 0 => []
  | S n' => firstn k d :: chunks n' k (skipn k d)
  end.

(** [a[1:]]; a 0-d array cannot be indexed. *)
Definition tail0 (a : ndarray A) : result (ndarray A) :=
  match shape a with
  | [] => Err IndexError
  | d0 :: rest => Ok (mkarr (pred d0 :: rest) (skipn (size_of rest) (data a)))
  end.

(** [a[:-1]] *)
Definition init0 (a : ndarray A) : result (ndarray A) :=
  match shape a with
  | [] => Err IndexError
  | d0 :: rest => Ok (mkarr (pred d0 :: rest) (firstn (pred d0 * size_of rest) (data a)))
  end.

(** [a[:, 1:]]; too many indices for an array of less than two axes. *)
Definition tail1 (a : ndarray A) : result (ndarray A) :=
  match shape a with
  | d0 :: d1 :: rest =>
      Ok (mkarr (d0 :: pred d1 :: rest)
            (concat (map (skipn (size_of rest)) (chunks d0 (d1 * size_of rest) (data a)))))
  | _ => Err IndexError
  end.

(** [a[:, :-1]] *)
Definition init1 (a : ndarray A) : result (ndarray A) :=
  match shape a with
  | d0 :: d1 :: rest =>
      Ok (mkarr (d0 :: pred d1 :: rest)
            (concat (map (firstn (pred d1 * size_of rest))
                       (chunks d0 (d1 * size_of rest) (data a)))))
  | _ => Err IndexError
  end.

Definition shape_eqb (s t : list nat) : bool :=
  if list_eq_dec Nat.eq_dec s t then true else false.

(** Broadcasting of two shapes read from their last axis. *)
Fixpoint broadcast_rev (s t : list nat) : option (list nat) :=
  match s, t with
  | [], r | r, [] => Some r
  | d :: s', e :: t' =>
      match broadcast_rev s' t' with
      | None => None
      | Some r =>
          if d =? e then Some (d :: r)
          else if d =? 1 then Some (e :: r)
          else if e =? 1 then Some (d :: r)
          else None
      end
  end.

(** [np.broadcast_shapes] *)
Definition broadcast_shapes (s t : list nat) : option (list nat) :=
  option_map (@rev nat) (broadcast_rev (rev s) (rev t)).

(** One axis of a broadcast: [x] and [y] are equal or one of them is 1, and
    [z] is the other. *)
Definition bc1 (x y z : nat) : Prop :=
  (x = y /\ z = x) \/ (x = 1 /\ z = y) \/ (y = 1 /\ z = x).

(** The data of an array of shape [s] stretched to the shape [t] of as many
    axes: an axis of length one is repeated. *)
Fixpoint stretch (t s : list nat) (d : list A) : list A :=
  match t, s with
  | dt :: t', ds :: s' =>
      if ds =? dt then concat (map (stretch t' s') (chunks ds (size_of s') d))
      else concat (repeat (stretch t' s' d) dt)
  | _, _ => d
  end.

(** [np.broadcast_to(a, t)]: the data of [a] seen with shape [t]. *)
Definition broadcast_to (t : list nat) (a : ndarray A) : result (list A) :=
  if shape_eqb (shape a) t then Ok (data a)
  else match broadcast_shapes (shape a) t with
       | Some r =>
           if shape_eqb r t
           then Ok (stretch t (repeat 1 (length t - ndim a) ++ shape a) (data a))
           else Err ValueError
       | None => Err ValueError
       end.

Fixpoint zip_with {B C : Type} (f : A -> B -> C) (l : list A) (m : list B) : list C :=
  match l, m with
  | x :: l', y :: m' => f x y :: zip_with f l' m'
  | _, _ => []
  end.

End Generic.

(** An elementwise operation of two arrays, with broadcasting; operands that
    cannot be broadcast together raise [ValueError]. *)
Definition binop {A B C : Type} (f : A -> B -> C) (a : ndarray A) (b : ndarray B)
  : result (ndarray C) :=
  match broadcast_shapes (shape a) (shape b) with
  | None => Err ValueError
  | Some r =>
      da <- broadcast_to r a ;;
      db <- broadcast_to r b ;;
      Ok (mkarr r (zip_with f da db))
  end.

(** An elementwise operation of one array (or of an array and a scalar). *)
Definition map {A B : Type} (f : A -> B) (a : ndarray A) : ndarray B :=
  mkarr (shape a) (List.map f (data a)).


(** *** Item assignment

    The data of one index along an axis is a block of [sz] consecutive
    elements; [n] is the length of the axis. *)

Section Assign.
Context {A : Type}.

(** [c[1:-1] = v] *)
Definition blk_set_inner (sz n : nat) (v c : list A) : list A :=
  firstn sz c ++ v ++ skipn ((n - 1) * sz) c.

(** [c[0] = c[1]] *)
Definition blk_first_from_second (sz : nat) (c : list A) : list A :=
  firstn sz (skipn sz c) ++ skipn sz c.

(** [c[-1] = c[-2]] *)
Definition blk_last_from_previous (sz n : nat) (c : list A) : list A :=
  firstn ((n - 1) * sz) c ++ firstn sz (skipn ((n - 2) * sz) c).

(** [t[1:-1] = v] *)
Definition set_inner0 (t v : ndarray A) : result (ndarray A) :=
  match shape t with
  | [] => Err IndexError
  | d0 :: rest =>
      d <- broadcast_to ((d0 - 2) :: rest) v ;;
      Ok (mkarr (shape t) (blk_set_inner (size_of rest) d0 d (data t)))
  end.

(** [t[0] = t[1]]; index 1 is out of bounds on an axis shorter than 2. *)
Definition copy_first0 (t : ndarray A) : result (ndarray A) :=
  match shape t with
  | [] => Err IndexError
  | d0 :: rest =>
      if d0 <? 2 then Err IndexError
      else Ok (mkarr (shape t) (blk_first_from_second (size_of rest) (data t)))
  end.

(** [t[-1] = t[-2]] *)
Definition copy_last0 (t : ndarray A) : result (ndarray A) :=
  match shape t with
  | [] => Err IndexError
  | d0 :: rest =>
      if d0 <? 2 then Err IndexError
      else Ok (mkarr (shape t) (blk_last_from_previous (size_of rest) d0 (data t)))
  end.

(** [t[:, 1:-1] = v] *)
Definition set_inner1 (t v : ndarray A) : result (ndarray A) :=
  match shape t with
  | d0 :: d1 :: rest =>
      let sz := size_of rest in
      d <- broadcast_to (d0 :: (d1 - 2) :: rest) v ;;
      Ok (mkarr (shape t)
            (concat (zip_with (blk_set_inner sz d1)
                       (chunks d0 ((d1 - 2) * sz) d) (chunks d0 (d1 * sz) (data t)))))
  | _ => Err IndexError
  end.

(** [t[:, 0] = t[:, 1]] *)
Definition copy_first1 (t : ndarray A) : result (ndarray A) :=
  match shape t with
  | d0 :: d1 :: rest =>
      let sz := size_of rest in
      if d1 <? 2 then Err IndexError
      else Ok (mkarr (shape t)
                 (concat (List.map (blk_first_from_second sz)
                            (chunks d0 (d1 * sz) (data t)))))
  | _ => Err IndexError
  end.

(** [t[:, -1] = t[:, -2]] *)
Definition copy_last1 (t : ndarray A) : result (ndarray A) :=
  match shape t with
  | d0 :: d1 :: rest =>
      let sz := size_of rest in
      if d1 <? 2 then Err IndexError
      else Ok (mkarr (shape t)
                 (concat (List.map (blk_last_from_previous sz d1)
                            (chunks d0 (d1 * sz) (data t)))))
  | _ => Err IndexError
  end.

(** [a[sj, si]] for two slices. *)
Definition getitem2 (sj si : Slice.t) (a : ndarray A) : result (ndarray A) :=
  match shape a with
  | d0 :: d1 :: rest =>
      let sz := size_of rest in
      let '(j0, j1) := Slice.indices sj (Z.of_nat d0) in
      let '(i0, i1) := Slice.indices si (Z.of_nat d1) in
      let nj := Z.to_nat (j1 - j0) in
      let ni := Z.to_nat (i1 - i0) in
      Ok (mkarr (nj :: ni :: rest)
            (concat (List.map (fun row => firstn (ni * sz) (skipn (Z.to_nat i0 * sz) row))
                       (firstn nj (skipn (Z.to_nat j0) (chunks d0 (d1 * sz) (data a)))))))
  | _ => Err IndexError
  end.

(** [t[:] = v] *)
Definition set_all (t v : ndarray A) : result (ndarray A) :=
  d <- broadcast_to (shape t) v ;;
  Ok (mkarr (shape t) d).

(** [t op= v]: the operand is broadcast to the shape of [t]. *)
Definition inplace (f : A -> A -> A) (t v : ndarray A) : result (ndarray A) :=
  d <- broadcast_to (shape t) v ;;
  Ok (mkarr (shape t) (zip_with f (data t) d)).

End Assign.

End Np.

(** ** Masked arrays *)

(** [numpy.ma.MaskedArray]: [true] in the mask flags an invalid element. *)
Record masked : Type := mkma { ma_data : ndarray npfloat; ma_mask : ndarray bool }.

Module Ma.

(** [np.ma.array(d, mask=m)]: a mask of another shape is resized when it has one
    element, reshaped when it has as many elements as the data, and refused
    otherwise. *)
Definition array (d : ndarray npfloat) (m : ndarray bool) : result masked :=
  if Np.shape_eqb (shape m) (shape d) then Ok (mkma d m)
  else if Np.size_of (shape m) =? 1
       then Ok (mkma d (Np.full (shape d) (hd false (data m))))
  else if Np.size_of (shape m) =? Np.size_of (shape d)
       then Ok (mkma d (mkarr (shape d) (data m)))
  else Err MaskError.

(** Where the mask is set the result keeps the data of the first operand. *)
Fixpoint revert (m : list bool) (r da : list npfloat) : list npfloat :=
  match m, r, da with
  | b :: m', x :: r', y :: da' => (if b then y else x) :: revert m' r' da'
  | _, _, _ => r
  end.

(** A binary operation of [numpy.ma] on two masked arrays (of at least one
    axis): the masks are or-ed. *)
Definition binop (f : npfloat -> npfloat -> npfloat) (a b : masked) : result masked :=
  r <- Np.binop f (ma_data a) (ma_data b) ;;
  m <- Np.binop orb (ma_mask a) (ma_mask b) ;;
  da <- Np.broadcast_to (shape r) (ma_data a) ;;
  Ok (mkma (mkarr (shape r) (revert (data m) (data r) da)) m).

(** A binary operation of [numpy.ma] on a masked array and a scalar. *)
Definition binop_scalar (f : npfloat -> npfloat -> npfloat) (a : masked) (x : npfloat)
  : masked :=
  mkma (mkarr (shape (ma_data a))
          (revert (data (ma_mask a)) (List.map (fun y => f y x) (data (ma_data a)))
             (data (ma_data a))))
       (ma_mask a).

(** The default [fill_value] of a masked array of floats. *)
Definition fill_value : npfloat := Fin 1e20.

Definition isfinite (x : npfloat) : bool :=
  match x with Fin _ => true | _ => false end.

(** [numpy.ma.power] with a scalar exponent, [f] being the power taken (on an
    array of at least one axis): a masked element keeps its data, and a result
    that is not finite is masked and replaced by the fill value. *)
Definition power (f : npfloat -> npfloat) (a : masked) : masked :=
  let result := revert (data (ma_mask a)) (List.map f (data (ma_data a)))
                  (data (ma_data a)) in
  let invalid := List.map (fun x => negb (isfinite x)) result in
  mkma (mkarr (shape (ma_data a))
          (Np.zip_with (fun (i : bool) x => if i then fill_value else x) invalid result))
       (mkarr (shape (ma_mask a)) (Np.zip_with orb (data (ma_mask a)) invalid)).

(** A plain array seen as a masked array without masked element. *)
Definition of_plain (a : ndarray npfloat) : masked :=
  mkma a (Np.full (shape a) false).

Definition lift (f : ndarray npfloat -> result (ndarray npfloat))
  (g : ndarray bool -> result (ndarray bool)) (a : masked) : result masked :=
  d <- f (ma_data a) ;;
  m <- g (ma_mask a) ;;
  Ok (mkma d m).

End Ma.

(** ** What the staggering functions ask of their argument *)

Class ArrayLike (X : Type) : Type := {
  al_shape : X -> list nat;
  al_tail0 : X -> result X;       (* x[1:] *)
  al_init0 : X -> result X;       (* x[:-1] *)
  al_tail1 : X -> result X;       (* x[:, 1:] *)
  al_init1 : X -> result X;       (* x[:, :-1] *)
  al_add : X -> X -> result X;    (* x + y *)
  al_mul : X -> npfloat -> X;     (* x * 0.5 *)
  al_asarray : X -> ndarray npfloat (* the data an ndarray item assignment stores *)
}.

#[export] Instance ndarray_like : ArrayLike (ndarray npfloat) := {
  al_shape := shape;
  al_tail0 := Np.tail0;
  al_init0 := Np.init0;
  al_tail1 := Np.tail1;
  al_init1 := Np.init1;
  al_add := Np.binop F.add;
  al_mul := fun a x => Np.map (fun y => F.mul y x) a;
  al_asarray := fun a => a
}.

#[export] Instance masked_like : ArrayLike masked := {
  al_shape := fun a => shape (ma_data a);
  al_tail0 := Ma.lift Np.tail0 Np.tail0;
  al_init0 := Ma.lift Np.init0 Np.init0;
  al_tail1 := Ma.lift Np.tail1 Np.tail1;
  al_init1 := Ma.lift Np.init1 Np.init1;
  al_add := Ma.binop F.add;
  al_mul := Ma.binop_scalar F.mul;
  al_asarray := ma_data
}.

(** ** Staggered grids *)

Definition half_interp {X : Type} `{ArrayLike X} (h_one h_two : X) : result X :=
  s <- al_add h_one h_two ;;
  Ok (al_mul s (Fin 0.5)).

Definition uu2ur {X : Type} `{ArrayLike X} (uu_in : X) (m_p l_p : nat)
  : result (ndarray npfloat) :=
  let u_out := Np.full [m_p; l_p] (Fin 0) in
  a <- al_init1 uu_in ;;
  b <- al_tail1 uu_in ;;
  h <- half_interp a b ;;
  u_out <- Np.set_inner1 u_out (al_asarray h) ;;
  u_out <- Np.copy_first1 u_out ;;
  u_out <- Np.copy_last1 u_out ;;
  Ok (Np.squeeze u_out).

(** Unpacking [uu_in.shape] into two names raises [ValueError] unless the
    array has two axes. *)
Definition u2rho_2d {X : Type} `{ArrayLike X} (uu_in : X) : result (ndarray npfloat) :=
  match al_shape uu_in with
  | [mshp; lshp] => uu2ur uu_in mshp (lshp + 1)
  | _ => Err ValueError
  end.

Definition vv2vr {X : Type} `{ArrayLike X} (vv_in : X) (m_p l_p : nat)
  : result (ndarray npfloat) :=
  let v_out := Np.full [m_p; l_p] (Fin 0) in
  a <- al_init0 vv_in ;;
  b <- al_tail0 vv_in ;;
  h <- half_interp a b ;;
  v_out <- Np.set_inner0 v_out (al_asarray h) ;;
  v_out <- Np.copy_first0 v_out ;;
  v_out <- Np.copy_last0 v_out ;;
  Ok (Np.squeeze v_out).

Definition v2rho_2d {X : Type} `{ArrayLike X} (vv_in : X) : result (ndarray npfloat) :=
  match al_shape vv_in with
  | [mshp; lshp] => vv2vr vv_in (mshp + 1) lshp
  | _ => Err ValueError
  end.

Definition rho2u_2d (rho_in : ndarray npfloat) : result (ndarray npfloat) :=
  if Np.ndim rho_in =? 2 then
    a <- Np.init1 rho_in ;;
    b <- Np.tail1 rho_in ;;
    s <- Np.binop F.add a b ;;
    Ok (Np.squeeze (Np.map (fun x => F.div x (Fin 2)) s))
  else Err AssertionError.

Definition rho2v_2d (rho_in : ndarray npfloat) : result (ndarray npfloat) :=
  if Np.ndim rho_in =? 2 then
    a <- Np.init0 rho_in ;;
    b <- Np.tail0 rho_in ;;
    s <- Np.binop F.add a b ;;
    Ok (Np.squeeze (Np.map (fun x => F.div x (Fin 2)) s))
  else Err AssertionError.

(** ** haversine_dist

    On arrays of points, in the exact arithmetic of [F]; the binary64
    arithmetic on one pair of points is [B64.haversine_dist] below. *)

(** The haversine [a_val] of two points (or arrays of points). *)
Definition haversine_a_val (lon1 lat1 lon2 lat2 : ndarray npfloat)
  : result (ndarray npfloat) :=
  dlat <- Np.binop F.sub lat2 lat1 ;;
  let sin_dlat :=
    Np.map F.sin (Np.map (fun x => F.mul x (Fin 0.5)) (Np.map F.deg2rad dlat)) in
  dlon <- Np.binop F.sub lon2 lon1 ;;
  let sin_dlon :=
    Np.map F.sin (Np.map (fun x => F.mul x (Fin 0.5)) (Np.map F.deg2rad dlon)) in
  let cos_lat1 := Np.map F.cos (Np.map F.deg2rad lat1) in
  let cos_lat2 := Np.map F.cos (Np.map F.deg2rad lat2) in
  t <- Np.binop F.mul (Np.map F.square sin_dlon) cos_lat1 ;;
  t <- Np.binop F.mul t cos_lat2 ;;
  Np.binop F.add t (Np.map F.square sin_dlat).

(** [c_val = 2 * np.arctan2(np.sqrt(a_val), np.sqrt(1 - a_val))] *)
Definition haversine_c_val (a_val : ndarray npfloat) : result (ndarray npfloat) :=
  t <- Np.binop F.arctan2 (Np.map F.sqrt a_val)
         (Np.map F.sqrt (Np.map (fun x => F.sub (Fin 1) x) a_val)) ;;
  Ok (Np.map (fun x => F.mul (Fin 2) x) t).

Definition haversine_dist (lon1 lat1 lon2 lat2 : ndarray npfloat)
  : result (ndarray npfloat) :=
  a_val <- haversine_a_val lon1 lat1 lon2 lat2 ;;
  c_val <- haversine_c_val a_val ;;
  Ok (Np.map (fun x => F.mul (Fin 6371315.0) x) c_val).

(** ** get_aviso_f_pm_pn *)

Definition GRAVITY : R := 9.81.

(** The cached attributes [_f_val], [_gof], [_pm], [_pn], [_dx] and [_dy]. *)
Record Metrics : Type := mkMetrics {
  f_val : ndarray npfloat;
  gof : ndarray npfloat;
  p_m : ndarray npfloat;
  p_n : ndarray npfloat;
  d_x : ndarray npfloat;
  d_y : ndarray npfloat
}.

(** [lonpad] and [latpad] are the coordinates of the padded window
    (properties of the subclasses). *)
Definition get_aviso_f_pm_pn (lonpad latpad : ndarray npfloat) : result Metrics :=
  let gof0 :=
    Np.map (fun x => F.div (F.mul (F.mul (F.sin (F.deg2rad x)) (Fin 4)) (Fin PI))
                       (Fin 86400)) latpad in
  let f_val' := gof0 in
  let gof' := Np.map (fun x => F.div (Fin GRAVITY) x) gof0 in
  lonu <- (a <- Np.init1 lonpad ;; b <- Np.tail1 lonpad ;; half_interp a b) ;;
  latu <- (a <- Np.init1 latpad ;; b <- Np.tail1 latpad ;; half_interp a b) ;;
  lonv <- (a <- Np.init0 lonpad ;; b <- Np.tail0 lonpad ;; half_interp a b) ;;
  latv <- (a <- Np.init0 latpad ;; b <- Np.tail0 latpad ;; half_interp a b) ;;
  let p_m' := Np.full (shape lonpad) (Fin 0) in
  lonu0 <- Np.init1 lonu ;; latu0 <- Np.init1 latu ;;
  lonu1 <- Np.tail1 lonu ;; latu1 <- Np.tail1 latu ;;
  h <- haversine_dist lonu0 latu0 lonu1 latu1 ;;
  p_m' <- Np.set_inner1 p_m' h ;;
  p_m' <- Np.copy_first1 p_m' ;;
  p_m' <- Np.copy_last1 p_m' ;;
  let dx' := p_m' in
  let pm' := Np.map F.reciprocal p_m' in
  let p_n' := Np.full (shape lonpad) (Fin 0) in
  lonv0 <- Np.init0 lonv ;; latv0 <- Np.init0 latv ;;
  lonv1 <- Np.tail0 lonv ;; latv1 <- Np.tail0 latv ;;
  h <- haversine_dist lonv0 latv0 lonv1 latv1 ;;
  p_n' <- Np.set_inner0 p_n' h ;;
  p_n' <- Np.copy_first0 p_n' ;;
  p_n' <- Np.copy_last0 p_n' ;;
  let dy' := p_n' in
  let pn' := Np.map F.reciprocal p_n' in
  Ok (mkMetrics f_val' gof' pm' pn' dx' dy').

(** A strictly positive float. *)
Definition positive (x : npfloat) : Prop :=
  match x with
  | Fin r => (0 < r)%R
  | PInf => True
  | _ => False
  end.

(** ** uvmask *)

(** [_umask] and [_vmask] from the mask of the padded window. *)
Definition uvmask (mask : ndarray bool) : result (ndarray bool * ndarray bool) :=
  umask <- (a <- Np.init1 mask ;; b <- Np.tail1 mask ;; Np.binop andb a b) ;;
  vmask <- (a <- Np.init0 mask ;; b <- Np.tail0 mask ;; Np.binop andb a b) ;;
  Ok (umask, vmask).

(** ** set_geostrophic_velocity *)

(** The arrays [upad] and [vpad] that the method fills in place. *)
Record Velocity : Type := mkVelocity {
  upad : ndarray npfloat;
  vpad : ndarray npfloat
}.

(** [self.p_n], [self.p_m], [self.gof], [self.umask] and [self.vmask] are
    properties of the subclasses; they are read as the cached attributes.
    [zeta] is a masked array, of which only [zeta.data] is used.  When the
    call raises, what it has already written is not described. *)
Definition set_geostrophic_velocity (m : Metrics) (umask vmask : ndarray bool)
  (self : Velocity) (zeta : masked) : result Velocity :=
  zeta1 <- Np.tail0 (ma_data zeta) ;;
  zeta2 <- Np.init0 (ma_data zeta) ;;
  pn1 <- Np.tail0 (p_n m) ;;
  pn2 <- Np.init0 (p_n m) ;;
  dz <- Np.binop F.sub zeta1 zeta2 ;;
  pn <- Np.binop F.add pn1 pn2 ;;
  x <- Np.binop F.mul (Np.map (fun y => F.mul y (Fin 0.5)) dz) pn ;;
  x <- Ma.array x vmask ;;
  r <- v2rho_2d x ;;
  upad' <- Np.set_all (upad self) r ;;
  upad' <- Np.inplace F.mul upad' (Np.map F.neg (gof m)) ;;
  zeta1 <- Np.tail1 (ma_data zeta) ;;
  zeta2 <- Np.init1 (ma_data zeta) ;;
  pm1 <- Np.tail1 (p_m m) ;;
  pm2 <- Np.init1 (p_m m) ;;
  dz <- Np.binop F.sub zeta1 zeta2 ;;
  pm <- Np.binop F.add pm1 pm2 ;;
  x <- Np.binop F.mul (Np.map (fun y => F.mul y (Fin 0.5)) dz) pm ;;
  x <- Ma.array x umask ;;
  r <- u2rho_2d x ;;
  vpad' <- Np.set_all (vpad self) r ;;
  vpad' <- Np.inplace F.mul vpad' (gof m) ;;
  Ok (mkVelocity upad' vpad').

Open Scope Z_scope.

(** ** set_index_padding *)

(** The index attributes of the object. *)
Record Window : Type := mkWindow {
  zero_crossing : bool;
  slice_i : Slice.t;
  slice_j : Slice.t;
  slice_i_pad : Slice.t;
  slice_j_pad : Slice.t;
  slice_i_unpad : Slice.t;
  slice_j_unpad : Slice.t
}.

(** [__init__]: no zero crossing, every slice is [slice(None)]. *)
Definition init_window : Window :=
  mkWindow false Slice.all Slice.all Slice.all Slice.all Slice.all Slice.all.

(** [start - pad] raises [TypeError] when [start] is [None]. *)
Definition get_str (start : option Z) (pad : Z) : result Z :=
  match start with
  | None => Err TypeError
  | Some s => Ok (Z.max 0 (s - pad))
  end.

Definition get_end (theend : option Z) (shape pad : Z) : option Z :=
  match theend with
  | None => None
  | Some e => Some (Z.min shape (e + pad))
  end.

(** [lon_shape] is [self._lon.shape]. *)
Definition set_index_padding (self : Window) (lon_shape : Z * Z) (pad : Z)
  : result Window :=
  jp0 <- get_str (Slice.start (slice_j self)) pad ;;
  let jp1 := get_end (Slice.stop (slice_j self)) (fst lon_shape) pad in
  let slice_j_unpad' := Slice.mk (Some pad) (Some (- pad)) in
  let slice_j_pad' := Slice.mk (Some jp0) jp1 in
  let pad := if zero_crossing self then - pad else pad in
  ip0 <- get_str (Slice.start (slice_i self)) pad ;;
  let ip1 := get_end (Slice.stop (slice_i self)) (snd lon_shape) pad in
  let slice_i_unpad' := Slice.mk (Some (Z.abs pad)) (Some (- Z.abs pad)) in
  let slice_i_pad' := Slice.mk (Some ip0) ip1 in
  Ok (mkWindow (zero_crossing self) (slice_i self) (slice_j self)
        slice_i_pad' slice_j_pad' slice_i_unpad' slice_j_unpad').

(** Shape of [a[slice_j, slice_i]] when [a] has shape [shape]. *)
Definition view_shape (sj si : Slice.t) (shape : Z * Z) : Z * Z :=
  (Slice.length sj (fst shape), Slice.length si (snd shape)).

(** Shape of the core window cut out of the grid. *)
Definition window_shape (w : Window) (lon_shape : Z * Z) : Z * Z :=
  view_shape (slice_j w) (slice_i w) lon_shape.

(** Shape of the padded window cut out of the grid. *)
Definition padded_shape (w : Window) (lon_shape : Z * Z) : Z * Z :=
  view_shape (slice_j_pad w) (slice_i_pad w) lon_shape.

(** Shape of [a[view_unpad]] for an array [a] shaped like the padded window. *)
Definition unpadded_shape (w : Window) (lon_shape : Z * Z) : Z * Z :=
  view_shape (slice_j_unpad w) (slice_i_unpad w) (padded_shape w lon_shape).

(** The non-wrapping window [slice(j0, j1), slice(i0, i1)] left by
    [set_initial_indices]. *)
Definition plain_window (j0 j1 i0 i1 : Z) : Window :=
  mkWindow false (Slice.mk (Some i0) (Some i1)) (Slice.mk (Some j0) (Some j1))
    Slice.all Slice.all Slice.all Slice.all.

(** ** create_index_inverse and the views *)

(** [n] consecutive integers from [a] on. *)
Fixpoint count_from (a : Z) (n : nat) : list Z :=
  match n with
  | O => []
  | S n' => a :: count_from (a + 1) n'
  end.

(** [np.arange(a, b)] of two integers: empty when [b <= a]. *)
Definition arange (a b : Z) : list Z := count_from a (Z.to_nat (b - a)).

(** [np.arange(stop, size)] and [np.arange(start)] raise [TypeError] on
    [None]. *)
Definition create_index_inverse (slice_to_inverse : Slice.t) (size : Z)
  : result (list Z) :=
  match Slice.stop slice_to_inverse with
  | None => Err TypeError
  | Some stop =>
      match Slice.start slice_to_inverse with
      | None => Err TypeError
      | Some start => Ok (arange stop size ++ arange 0 start)
      end
  end.

(** What indexes the second axis in a view: a slice, or an array of
    indices. *)
Inductive index : Type :=
| BySlice (s : Slice.t)
| ByArray (l : list Z).

Definition view (self : Window) (lon_shape : Z * Z) : result (Slice.t * index) :=
  if negb (zero_crossing self) then Ok (slice_j self, BySlice (slice_i self))
  else
    l <- create_index_inverse (slice_i self) (snd lon_shape) ;;
    Ok (slice_j self, ByArray l).

Definition view_pad (self : Window) (lon_shape : Z * Z) : result (Slice.t * index) :=
  if negb (zero_crossing self) then Ok (slice_j_pad self, BySlice (slice_i_pad self))
  else
    l <- create_index_inverse (slice_i_pad self) (snd lon_shape) ;;
    Ok (slice_j_pad self, ByArray l).

Definition view_unpad (self : Window) : Slice.t * Slice.t :=
  (slice_j_unpad self, slice_i_unpad self).

(** The place, on an axis of length [n], that the entry [k] of an index array
    points to: a negative entry counts from the end, an entry out of
    [-n, n) raises [IndexError]. *)
Definition position (n k : Z) : result Z :=
  if (k <? - n) || (n <=? k) then Err IndexError
  else Ok (if k <? 0 then k + n else k).

Fixpoint positions_of (n : Z) (l : list Z) : result (list Z) :=
  match l with
  | [] => Ok []
  | k :: l' =>
      p <- position n k ;;
      ps <- positions_of n l' ;;
      Ok (p :: ps)
  end.

(** The places of an axis of length [n] that [a[..., ix]] is made of, in
    order. *)
Definition selected (ix : index) (n : Z) : result (list Z) :=
  match ix with
  | BySlice s => let '(a, b) := Slice.indices s n in Ok (arange a b)
  | ByArray l => positions_of n l
  end.

(** [l[s]]: the slice [s] of a sequence, here the columns of an array. *)
Definition take_slice {A : Type} (s : Slice.t) (l : list A) : list A :=
  let '(a, b) := Slice.indices s (Z.of_nat (length l)) in
  firstn (Z.to_nat (b - a)) (skipn (Z.to_nat a) l).

(** ** set_u_v_eke *)

(** [np.empty((rows, columns))]: the values of the new array are whatever the
    memory holds, so only its shape is kept. A negative dimension raises
    [ValueError], [None] raises [TypeError]. *)
Definition empty (rows : Z) (columns : option Z) : result (Z * Z) :=
  match columns with
  | None => Err TypeError
  | Some c => if (rows <? 0) || (c <? 0) then Err ValueError else Ok (rows, c)
  end.

(** [a - b] of two slice bounds. *)
Definition sub_bounds (a b : option Z) : result Z :=
  match a, b with
  | Some x, Some y => Ok (x - y)
  | _, _ => Err TypeError
  end.

(** [np.ma.concatenate((u_0, u_1), axis=1)] of two 2-d arrays. *)
Definition concatenate1 (u_0 u_1 : Z * Z) : result (Z * Z) :=
  if fst u_0 =? fst u_1 then Ok (fst u_0, snd u_0 + snd u_1) else Err ValueError.

(** The shape of the new [upad]; [vpad] is [np.empty_like(upad)]. *)
Definition set_u_v_eke (self : Window) (lon_shape : Z * Z) : result (Z * Z) :=
  j_size <- sub_bounds (Slice.stop (slice_j_pad self)) (Slice.start (slice_j_pad self)) ;;
  if zero_crossing self then
    u_1 <- empty j_size (Slice.start (slice_i_pad self)) ;;
    w_0 <- sub_bounds (Some (snd lon_shape)) (Slice.stop (slice_i_pad self)) ;;
    u_0 <- empty j_size (Some w_0) ;;
    concatenate1 u_0 u_1
  else
    w <- sub_bounds (Slice.stop (slice_i_pad self)) (Slice.start (slice_i_pad self)) ;;
    empty j_size (Some w).

(** The shape of [a[sj, ix]] for an array [a] of shape [shape]. *)
Definition indexed_shape (v : Slice.t * index) (shape : Z * Z) : Z * Z :=
  (Slice.length (fst v) (fst shape),
   match snd v with
   | BySlice s => Slice.length s (snd shape)
   | ByArray l => Z.of_nat (length l)
   end).

Close Scope Z_scope.

(** ** get_eke and uspd *)

(** [upad] is a plain array, or a masked array when it was made by
    [np.ma.concatenate] for a zero crossing. *)
Inductive anyarray : Type :=
| Plain (a : ndarray npfloat)
| Masked (a : masked).

Definition as_masked (x : anyarray) : masked :=
  match x with Plain a => Ma.of_plain a | Masked a => a end.

(** [x[view_unpad]] *)
Definition unpad (w : Window) (x : anyarray) : result anyarray :=
  match x with
  | Plain a =>
      r <- Np.getitem2 (slice_j_unpad w) (slice_i_unpad w) a ;; Ok (Plain r)
  | Masked a =>
      r <- Ma.lift (Np.getitem2 (slice_j_unpad w) (slice_i_unpad w))
             (Np.getitem2 (slice_j_unpad w) (slice_i_unpad w)) a ;;
      Ok (Masked r)
  end.

(** [x ** 2] and [x ** .5] ([f] is the power taken) *)
Definition any_power (f : npfloat -> npfloat) (x : anyarray) : anyarray :=
  match x with
  | Plain a => Plain (Np.map f a)
  | Masked a => Masked (Ma.power f a)
  end.

(** [x + y] *)
Definition any_add (x y : anyarray) : result anyarray :=
  match x, y with
  | Plain a, Plain b => r <- Np.binop F.add a b ;; Ok (Plain r)
  | _, _ => r <- Ma.binop F.add (as_masked x) (as_masked y) ;; Ok (Masked r)
  end.

(** [x * 0.5] *)
Definition any_mul (x : anyarray) (c : npfloat) : anyarray :=
  match x with
  | Plain a => Plain (al_mul a c)
  | Masked a => Masked (al_mul a c)
  end.

(** [get_eke]: the new [u_val], [v_val] and [eke]. *)
Definition get_eke (w : Window) (upad vpad : anyarray)
  : result (anyarray * anyarray * anyarray) :=
  u_val <- unpad w upad ;;
  v_val <- unpad w vpad ;;
  s <- any_add (any_power F.square u_val) (any_power F.square v_val) ;;
  Ok (u_val, v_val, any_mul s (Fin 0.5)).

(** The property [uspd]; [mask] is [self.mask], the mask of the grid over the
    padded window (a property of the subclasses). *)
Definition uspd (w : Window) (u_val v_val : anyarray) (mask : ndarray bool)
  : result masked :=
  s <- any_add (any_power F.square u_val) (any_power F.square v_val) ;;
  match any_power F.sqrt s with
  | Masked r =>
      m <- Np.getitem2 (slice_j_unpad w) (slice_i_unpad w) mask ;;
      m' <- Np.inplace orb (ma_mask r) m ;;
      Ok (mkma (ma_data r) m')
  | Plain r =>
      m <- Np.getitem2 (slice_j_unpad w) (slice_i_unpad w) mask ;;
      Ma.array r m
  end.

(** ** Flags of the elements of an array *)

(** The flag of the element [k] of [x]: a masked array flags it invalid where
    its mask is set, a plain array flags nothing. *)
Definition flagged (x : anyarray) (k : nat) : bool :=
  match x with
  | Plain _ => false
  | Masked a => nth k (data (ma_mask a)) false
  end.

(** [x] has the shape [s], and as many elements (and flags) as [s] asks
    for. *)
Definition shaped (s : list nat) (x : anyarray) : Prop :=
  match x with
  | Plain a => shape a = s /\ Np.wf a
  | Masked a =>
      shape (ma_data a) = s /\ Np.wf (ma_data a) /\
      shape (ma_mask a) = s /\ Np.wf (ma_mask a)
  end.

(** ** haversine_dist in binary64

    The distance of two points given by Python floats, in IEEE 754 binary64
    with rounding to nearest: the arithmetic that numpy does on float64.
    [np.sin], [np.cos] and [np.arctan2] call the C library, whose results
    the source does not fix: they are a parameter. *)

Module B64.
Import Floats.PrimFloat.
Local Open Scope float_scope.

(** The functions of the C library that [haversine_dist] calls. *)
Record libm : Type := mklibm {
  c_sin : float -> float;
  c_cos : float -> float;
  c_atan2 : float -> float -> float
}.

(** [np.deg2rad]: the product by the constant [pi / 180] of float64,
    0.017453292519943295. *)
Definition deg2rad (x : float) : float := x * 0x1.1df46a2529d39p-6.

(** [x ** 2] *)
Definition square (x : float) : float := x * x.

(** [np.deg2rad(x2 - x1) * 0.5] *)
Definition half_angle (x1 x2 : float) : float := deg2rad (x2 - x1) * 0.5.

Definition a_val (L : libm) (lon1 lat1 lon2 lat2 : float) : float :=
  let sin_dlat := c_sin L (half_angle lat1 lat2) in
  let sin_dlon := c_sin L (half_angle lon1 lon2) in
  let cos_lat1 := c_cos L (deg2rad lat1) in
  let cos_lat2 := c_cos L (deg2rad lat2) in
  square sin_dlon * cos_lat1 * cos_lat2 + square sin_dlat.

Definition c_val (L : libm) (a : float) : float :=
  2 * c_atan2 L (sqrt a) (sqrt (1 - a)).

Definition haversine_dist (L : libm) (lon1 lat1 lon2 lat2 : float) : float :=
  6371315.0 * c_val L (a_val L lon1 lat1 lon2 lat2).

(** The value that a table gives at [x], nan where it gives none; the
    arguments are compared bit by bit. *)
Definition tabulated (t : list (float * float)) (x : float) : float :=
  match find (fun p => Leibniz.eqb (fst p) x) t with
  | Some p => snd p
  | None => nan
  end.

Definition tabulated2 (t : list (float * float * float)) (y x : float) : float :=
  match find (fun p => Leibniz.eqb (snd (fst p)) x && Leibniz.eqb (fst (fst p)) y) t with
  | Some p => snd p
  | None => nan
  end.

(** The sines, cosines and arc tangents, rounded to the nearest float64, at
    the arguments that the distances of (0, 1) and (2, 3), of (0, 1) and
    (2, 1), and of (0, 8) and (180, -8) ask for:
    - sin (+-0) = +-0, sin (+-0.017453292519943295) = +-0.01745240643728351,
      sin (-0.13962634015954636) = -0.13917310096006544,
      sin 1.5707963267948966 = 1;
    - cos 0.017453292519943295 = 0.9998476951563913,
      cos 0.05235987755982989 = 0.9986295347545738,
      cos (+-0.13962634015954636) = 0.9902680687415704;
    - arctan2 (0, 1) = 0,
      arctan2 (0.024667031616633544, 0.9996957223...) = 0.02467453704470451,
      arctan2 (0.02466703161663354, 0.9996957223...) = 0.024674537044704507,
      arctan2 (0.017449748351250485, 0.9998477415...) = 0.0174506340290709. *)
Definition rounded_values : libm :=
  mklibm
    (tabulated
       [(0, 0);
        (neg_zero, neg_zero);
        (0x1.1df46a2529d39p-6, 0x1.1df0b2b89dd1ep-6);
        (-0x1.1df46a2529d39p-6, -0x1.1df0b2b89dd1ep-6);
        (-0x1.1df46a2529d39p-3, -0x1.1d06c968d9e19p-3);
        (0x1.921fb54442d18p+0, 1)])
    (tabulated
       [(0x1.1df46a2529d39p-6, 0x1.ffec097f5af8ap-1);
        (0x1.acee9f37bebd6p-5, 0x1.ff4c5ed12e61dp-1);
        (0x1.1df46a2529d39p-3, 0x1.fb046a930947ap-1);
        (-0x1.1df46a2529d39p-3, 0x1.fb046a930947ap-1)])
    (tabulated2
       [(0, 1, 0);
        (0x1.943a0215674bcp-6, 0x1.ffd819ffcbcafp-1, 0x1.94448269a91afp-6);
        (0x1.943a0215674bbp-6, 0x1.ffd819ffcbcafp-1, 0x1.94448269a91aep-6);
        (0x1.1de58c9f7dc27p-6, 0x1.ffec0b0ddf6c2p-1, 0x1.1de9439cc1ba7p-6)]).

End B64.

(** * Properties *)

(** ** Shapes of the array operations *)

Lemma shape_eqb_refl (s : list nat) : Np.shape_eqb s s = true.
Proof. unfold Np.shape_eqb. destruct (list_eq_dec Nat.eq_dec s s); congruence. Qed.

Lemma shape_eqb_eq (s t : list nat) : Np.shape_eqb s t = true <-> s = t.
Proof.
  unfold Np.shape_eqb. destruct (list_eq_dec Nat.eq_dec s t); split; congruence.
Qed.

Lemma broadcast_rev_refl (s : list nat) : Np.broadcast_rev s s = Some s.
Proof.
  induction s as [|d s IH]; cbn; [reflexivity|].
  rewrite IH, Nat.eqb_refl. reflexivity.
Qed.

Lemma broadcast_shapes_refl (s : list nat) : Np.broadcast_shapes s s = Some s.
Proof.
  unfold Np.broadcast_shapes. rewrite broadcast_rev_refl. cbn.
  rewrite rev_involutive. reflexivity.
Qed.

Lemma broadcast_to_same {A : Type} (a : ndarray A) :
  Np.broadcast_to (shape a) a = Ok (data a).
Proof. unfold Np.broadcast_to. rewrite shape_eqb_refl. reflexivity. Qed.

Lemma binop_same_shape {A B C : Type} (f : A -> B -> C) (a : ndarray A) (b : ndarray B) :
  shape a = shape b ->
  Np.binop f a b = Ok (mkarr (shape a) (Np.zip_with f (data a) (data b))).
Proof.
  intros E. unfold Np.binop, Np.broadcast_to.
  rewrite <- E, broadcast_shapes_refl, shape_eqb_refl. reflexivity.
Qed.

Lemma rho2u_2d_2d (rho_in : ndarray npfloat) (m n : nat) :
  shape rho_in = [m; n] ->
  exists d, rho2u_2d rho_in = Ok (Np.squeeze (mkarr [m; pred n] d)).
Proof.
  intros E. unfold rho2u_2d, Np.ndim, Np.init1, Np.tail1. rewrite E. cbn.
  rewrite binop_same_shape by reflexivity. cbn.
  unfold Np.squeeze, Np.map. cbn [shape data]. eexists. reflexivity.
Qed.

Lemma rho2v_2d_2d (rho_in : ndarray npfloat) (m n : nat) :
  shape rho_in = [m; n] ->
  exists d, rho2v_2d rho_in = Ok (Np.squeeze (mkarr [pred m; n] d)).
Proof.
  intros E. unfold rho2v_2d, Np.ndim, Np.init0, Np.tail0. rewrite E. cbn.
  rewrite binop_same_shape by reflexivity. cbn.
  unfold Np.squeeze, Np.map. cbn [shape data]. eexists. reflexivity.
Qed.

(** ** Constant blocks of data *)

Section Repeat.
Context {A : Type}.
Implicit Types (x : A) (n k m sz : nat).

Lemma firstn_repeat x k n : firstn k (repeat x n) = repeat x (Nat.min k n).
Proof.
  revert n; induction k as [|k IH]; intros [|n]; cbn; try reflexivity.
  now rewrite IH.
Qed.

Lemma skipn_repeat x k n : skipn k (repeat x n) = repeat x (n - k).
Proof.
  revert n; induction k as [|k IH]; intros [|n]; cbn; try reflexivity.
  now rewrite IH.
Qed.

Lemma firstn_repeat_le x k n : k <= n -> firstn k (repeat x n) = repeat x k.
Proof. intros H. rewrite firstn_repeat. f_equal. lia. Qed.

Lemma chunks_repeat x m k : Np.chunks m k (repeat x (m * k)) = repeat (repeat x k) m.
Proof.
  induction m as [|m IH]; cbn; [reflexivity|].
  rewrite firstn_repeat_le by lia. rewrite skipn_repeat.
  replace (k + m * k - k) with (m * k) by lia. now rewrite IH.
Qed.

Lemma concat_repeat x m k : concat (repeat (repeat x k) m) = repeat x (m * k).
Proof.
  induction m as [|m IH]; cbn; [reflexivity|].
  now rewrite IH, repeat_app.
Qed.

Lemma zip_with_repeat {B C : Type} (f : A -> B -> C) x (y : B) n :
  Np.zip_with f (repeat x n) (repeat y n) = repeat (f x y) n.
Proof. induction n as [|n IH]; cbn; [reflexivity|]. now rewrite IH. Qed.

(** Filling the inner blocks with [x] and copying the second block to the
    first and the last but one to the last leaves [x] everywhere, when there
    is an inner block. *)
Lemma blk_fill sz k x (z : A) :
  1 <= k ->
  Np.blk_last_from_previous sz (k + 2)
    (Np.blk_first_from_second sz
       (Np.blk_set_inner sz (k + 2) (repeat x (k * sz)) (repeat z ((k + 2) * sz))))
  = repeat x ((k + 2) * sz).
Proof.
  intros Hk. unfold Np.blk_set_inner.
  rewrite firstn_repeat_le, skipn_repeat by nia.
  replace ((k + 2) * sz - (k + 2 - 1) * sz) with sz by nia.
  unfold Np.blk_first_from_second.
  rewrite skipn_app, repeat_length, Nat.sub_diag, skipn_repeat, Nat.sub_diag.
  cbn [repeat app skipn].
  rewrite firstn_app, firstn_repeat_le, repeat_length by nia.
  replace (sz - k * sz) with 0 by nia. cbn [firstn]. rewrite app_nil_r.
  unfold Np.blk_last_from_previous.
  rewrite app_assoc, <- repeat_app.
  rewrite firstn_app, firstn_repeat_le, repeat_length by nia.
  replace ((k + 2 - 1) * sz - (sz + k * sz)) with 0 by nia. cbn [firstn].
  rewrite app_nil_r.
  rewrite skipn_app, skipn_repeat, repeat_length.
  replace ((k + 2 - 2) * sz - (sz + k * sz)) with 0 by nia. cbn [skipn].
  replace (sz + k * sz - (k + 2 - 2) * sz) with sz by nia.
  rewrite firstn_app, firstn_repeat_le, repeat_length, Nat.sub_diag by lia.
  cbn [firstn]. rewrite app_nil_r, <- repeat_app. f_equal. nia.
Qed.

(** Without an inner block the copies spread the initial value. *)
Lemma blk_fill_none sz (z : A) :
  Np.blk_last_from_previous sz 2
    (Np.blk_first_from_second sz (Np.blk_set_inner sz 2 [] (repeat z (2 * sz))))
  = repeat z (2 * sz).
Proof.
  unfold Np.blk_set_inner. cbn [app].
  rewrite firstn_repeat_le, skipn_repeat by nia.
  replace (2 * sz - (2 - 1) * sz) with sz by nia.
  unfold Np.blk_first_from_second.
  rewrite skipn_app, repeat_length, Nat.sub_diag, skipn_repeat, Nat.sub_diag.
  cbn [repeat app skipn].
  rewrite firstn_repeat_le by lia.
  unfold Np.blk_last_from_previous.
  rewrite <- repeat_app. rewrite firstn_repeat_le by nia.
  cbn [Nat.sub Nat.mul skipn]. rewrite firstn_repeat_le by nia.
  rewrite <- repeat_app. f_equal. nia.
Qed.

(** Both cases at once. *)
Lemma blk_fill_any sz k x (z : A) :
  1 <= k \/ x = z ->
  Np.blk_last_from_previous sz (k + 2)
    (Np.blk_first_from_second sz
       (Np.blk_set_inner sz (k + 2) (repeat x (k * sz)) (repeat z ((k + 2) * sz))))
  = repeat x ((k + 2) * sz).
Proof.
  intros [Hk | ->]; [now apply blk_fill|].
  destruct k as [|k]; [exact (blk_fill_none sz z) | apply blk_fill; lia].
Qed.

End Repeat.

(** ** Operations on a constant array *)

Section Full.
Context {A : Type}.
Implicit Types (x : A) (s rest : list nat).

Lemma chunks_concat_repeat (r : list A) m k :
  length r = k -> Np.chunks m k (concat (repeat r m)) = repeat r m.
Proof.
  intros <-. induction m as [|m IH]; cbn; [reflexivity|].
  rewrite firstn_app, firstn_all, Nat.sub_diag. cbn [firstn]. rewrite app_nil_r.
  rewrite skipn_app, skipn_all, Nat.sub_diag. cbn [skipn app]. now rewrite IH.
Qed.

Lemma tail0_full d0 rest x :
  Np.tail0 (Np.full (d0 :: rest) x) = Ok (Np.full (pred d0 :: rest) x).
Proof.
  unfold Np.tail0, Np.full. cbn [shape data Np.size_of fold_right].
  rewrite skipn_repeat. do 3 f_equal.
  unfold Np.size_of. generalize (fold_right Nat.mul 1 rest); intros sz. destruct d0; cbn; nia.
Qed.

Lemma init0_full d0 rest x :
  Np.init0 (Np.full (d0 :: rest) x) = Ok (Np.full (pred d0 :: rest) x).
Proof.
  unfold Np.init0, Np.full. cbn [shape data Np.size_of fold_right].
  rewrite firstn_repeat. do 3 f_equal.
  unfold Np.size_of. generalize (fold_right Nat.mul 1 rest); intros sz. destruct d0; cbn; nia.
Qed.

Lemma tail1_full d0 d1 rest x :
  Np.tail1 (Np.full (d0 :: d1 :: rest) x) = Ok (Np.full (d0 :: pred d1 :: rest) x).
Proof.
  unfold Np.tail1, Np.full. cbn [shape data Np.size_of fold_right].
  rewrite chunks_repeat, map_repeat, skipn_repeat, concat_repeat. do 3 f_equal.
  unfold Np.size_of. generalize (fold_right Nat.mul 1 rest); intros sz. destruct d1; cbn; nia.
Qed.

Lemma init1_full d0 d1 rest x :
  Np.init1 (Np.full (d0 :: d1 :: rest) x) = Ok (Np.full (d0 :: pred d1 :: rest) x).
Proof.
  unfold Np.init1, Np.full. cbn [shape data Np.size_of fold_right].
  rewrite chunks_repeat, map_repeat, firstn_repeat, concat_repeat. do 3 f_equal.
  unfold Np.size_of. generalize (fold_right Nat.mul 1 rest); intros sz. destruct d1; cbn; nia.
Qed.

Lemma binop_full {B C : Type} (f : A -> B -> C) s x (y : B) :
  Np.binop f (Np.full s x) (Np.full s y) = Ok (Np.full s (f x y)).
Proof.
  rewrite binop_same_shape by reflexivity. unfold Np.full. cbn.
  now rewrite zip_with_repeat.
Qed.

Lemma map_full {B : Type} (f : A -> B) s x : Np.map f (Np.full s x) = Np.full s (f x).
Proof. unfold Np.map, Np.full. cbn. now rewrite map_repeat. Qed.

(** [t[:, 1:-1] = v; t[:, 0] = t[:, 1]; t[:, -1] = t[:, -2]] with a constant
    [v] of at least one column (or of the value of [t]) makes [t] constant. *)
Lemma fill1_full d0 k rest x (z : A) :
  1 <= k \/ x = z ->
  (t <- Np.set_inner1 (Np.full (d0 :: (k + 2) :: rest) z) (Np.full (d0 :: k :: rest) x) ;;
   t <- Np.copy_first1 t ;;
   Np.copy_last1 t) = Ok (Np.full (d0 :: (k + 2) :: rest) x).
Proof.
  intros Hk.
  assert (Hlt : (k + 2 <? 2) = false) by (apply Nat.ltb_ge; lia).
  unfold Np.set_inner1, Np.copy_first1, Np.copy_last1, Np.broadcast_to, Np.full.
  cbn [shape data]. replace (k + 2 - 2) with k by lia.
  rewrite shape_eqb_refl. cbn [bind shape data].
  rewrite ?Hlt.
  unfold Np.size_of. cbn [bind shape data fold_right].
  set (sz := fold_right Nat.mul 1 rest).
  rewrite !chunks_repeat, zip_with_repeat.
  assert (L : length (Np.blk_set_inner sz (k + 2) (repeat x (k * sz))
                        (repeat z ((k + 2) * sz))) = (k + 2) * sz).
  { unfold Np.blk_set_inner.
    rewrite !length_app, length_firstn, length_skipn, !repeat_length. nia. }
  rewrite chunks_concat_repeat by exact L.
  rewrite map_repeat, chunks_concat_repeat.
  2:{ unfold Np.blk_first_from_second.
      rewrite length_app, length_firstn, !length_skipn, L. nia. }
  rewrite map_repeat, blk_fill_any by exact Hk. rewrite concat_repeat, ?Hlt. reflexivity.
Qed.

(** The same along the first axis. *)
Lemma fill0_full k rest x (z : A) :
  1 <= k \/ x = z ->
  (t <- Np.set_inner0 (Np.full ((k + 2) :: rest) z) (Np.full (k :: rest) x) ;;
   t <- Np.copy_first0 t ;;
   Np.copy_last0 t) = Ok (Np.full ((k + 2) :: rest) x).
Proof.
  intros Hk.
  assert (Hlt : (k + 2 <? 2) = false) by (apply Nat.ltb_ge; lia).
  unfold Np.set_inner0, Np.copy_first0, Np.copy_last0, Np.broadcast_to, Np.full.
  cbn [shape data]. replace (k + 2 - 2) with k by lia.
  rewrite shape_eqb_refl. cbn [bind shape data].
  rewrite ?Hlt.
  unfold Np.size_of. cbn [bind shape data fold_right].
  rewrite ?Hlt. cbn [bind shape data]. rewrite ?Hlt, blk_fill_any by exact Hk. reflexivity.
Qed.

End Full.

Lemma squeeze_2d {A : Type} (m n : nat) (d : list A) :
  m <> 1 -> n <> 1 -> Np.squeeze (mkarr [m; n] d) = mkarr [m; n] d.
Proof.
  intros Hm Hn. unfold Np.squeeze. cbn.
  rewrite (proj2 (Nat.eqb_neq _ _) Hm), (proj2 (Nat.eqb_neq _ _) Hn). reflexivity.
Qed.

Section ConstantField.




End ConstantField.

(** ** Staggering of an array that is not 2-d *)

(** C2, as stated, fails: no single error is raised by the four functions.
    On the 1-d array [[1, 2, 3]], [rho2u_2d] stops on its assertion while
    [u2rho_2d] stops on the unpacking of the shape. *)
Lemma C2_no_single_error_counterexample :
  ~ (exists InvalidShape : exn,
       forall a : ndarray npfloat, Np.ndim a <> 2 ->
         rho2u_2d a = Err InvalidShape /\ rho2v_2d a = Err InvalidShape /\
         u2rho_2d a = Err InvalidShape /\ v2rho_2d a = Err InvalidShape).
Proof.
  intros [e H].
  destruct (H (mkarr [3] [Fin 1; Fin 2; Fin 3])) as (H1 & _ & H3 & _).
  - cbn. discriminate.
  - cbn in H1, H3. congruence.
Qed.

(** C2, amended: on every input that is not 2-d each of the four functions
    raises and returns nothing; [rho2u_2d] and [rho2v_2d] raise
    [AssertionError], [u2rho_2d] and [v2rho_2d] raise [ValueError]. *)
Theorem C2_not_2d_raises (a : ndarray npfloat) :
  Np.ndim a <> 2 ->
  rho2u_2d a = Err AssertionError /\ rho2v_2d a = Err AssertionError /\
  u2rho_2d a = Err ValueError /\ v2rho_2d a = Err ValueError.
Proof.
  intros H. unfold rho2u_2d, rho2v_2d, u2rho_2d, v2rho_2d.
  rewrite (proj2 (Nat.eqb_neq _ _) H).
  cbn [al_shape ndarray_like].
  repeat split; try reflexivity;
    unfold Np.ndim in H; destruct (shape a) as [|? [|? [|? ?]]]; try reflexivity;
    cbn in H; congruence.
Qed.

Lemma C2_not_2d_raises_witness :
  rho2u_2d (mkarr [3] [Fin 1; Fin 2; Fin 3]) = Err AssertionError /\
  rho2v_2d (mkarr [3] [Fin 1; Fin 2; Fin 3]) = Err AssertionError /\
  u2rho_2d (mkarr [3] [Fin 1; Fin 2; Fin 3]) = Err ValueError /\
  v2rho_2d (mkarr [3] [Fin 1; Fin 2; Fin 3]) = Err ValueError.
Proof.
  apply (C2_not_2d_raises (mkarr [3] [Fin 1; Fin 2; Fin 3])). cbn. discriminate.
Defined.

(** ** Staggering at the smallest sizes *)

(** C10, as stated, fails for a single row: the array [[1, 2]] of shape
    (1, 2) is averaged to shape (1, 1), which [squeeze] turns into a 0-d
    array, not a 1-d array of length 1. *)
Lemma C10_one_row_counterexample :
  ~ (forall (a : ndarray npfloat) (ny : nat),
       shape a = [ny; 2] ->
       exists r, rho2u_2d a = Ok r /\ shape r = [ny]).
Proof.
  intros H.
  destruct (H (mkarr [1; 2] [Fin 1; Fin 2]) 1 eq_refl) as (r & Hr & Hs).
  destruct (rho2u_2d_2d (mkarr [1; 2] [Fin 1; Fin 2]) 1 2 eq_refl) as [d Hd].
  rewrite Hd in Hr. injection Hr as <-. cbn in Hs. discriminate Hs.
Qed.

(** C10, amended: on an input of two columns and [n] rows [rho2u_2d] returns
    a 1-d array of length [n] unless [n] is 1, in which case it returns a 0-d
    array; the same holds of [rho2v_2d] on an input of two rows and [n]
    columns. *)
Theorem C10_two_columns_lose_an_axis (a b : ndarray npfloat) (n : nat) :
  shape a = [n; 2] ->
  shape b = [2; n] ->
  (exists r, rho2u_2d a = Ok r /\ shape r = if n =? 1 then [] else [n]) /\
  (exists r, rho2v_2d b = Ok r /\ shape r = if n =? 1 then [] else [n]).
Proof.
  intros Ha Hb. split.
  - destruct (rho2u_2d_2d a n 2 Ha) as [d ->]. eexists; split; [reflexivity|].
    cbn. destruct (n =? 1); reflexivity.
  - destruct (rho2v_2d_2d b 2 n Hb) as [d ->]. eexists; split; [reflexivity|].
    cbn. destruct (n =? 1); reflexivity.
Qed.

Lemma C10_two_columns_lose_an_axis_witness :
  (exists r, rho2u_2d (mkarr [3; 2] (repeat (Fin 0) 6)) = Ok r /\ shape r = [3]) /\
  (exists r, rho2v_2d (mkarr [2; 3] (repeat (Fin 0) 6)) = Ok r /\ shape r = [3]).
Proof.
  exact (C10_two_columns_lose_an_axis
           (mkarr [3; 2] (repeat (Fin 0) 6)) (mkarr [2; 3] (repeat (Fin 0) 6)) 3
           eq_refl eq_refl).
Defined.

(** ** Round trip of a constant field *)




(** ** Properties of every element *)

Lemma bind_ok {A B : Type} (r : result A) (k : A -> result B) (b : B) :
  bind r k = Ok b -> exists a, r = Ok a /\ k a = Ok b.
Proof. destruct r as [a|e]; cbn; [eauto | discriminate]. Qed.

Ltac bind_inv H :=
  repeat match type of H with
    | bind _ _ = Ok _ =>
        let a := fresh "a" in
        let E := fresh "E" in
        apply bind_ok in H; destruct H as (a & E & H)
    end.

Lemma Forall_firstn {A : Type} (P : A -> Prop) n (l : list A) :
  Forall P l -> Forall P (firstn n l).
Proof.
  intros H; revert n; induction H; intros [|n]; cbn; constructor; auto.
Qed.

Lemma Forall_skipn {A : Type} (P : A -> Prop) n (l : list A) :
  Forall P l -> Forall P (skipn n l).
Proof.
  intros H; revert n; induction H; intros [|n]; cbn; auto.
Qed.

Lemma Forall_repeat {A : Type} (P : A -> Prop) (x : A) n : P x -> Forall P (repeat x n).
Proof. intros H; induction n; cbn; constructor; auto. Qed.

Section Elements.
Context {A : Type} (P : A -> Prop).

Lemma Forall_chunks n k (d : list A) : Forall P d -> Forall (Forall P) (Np.chunks n k d).
Proof.
  revert d; induction n as [|n IH]; intros d H; cbn; constructor.
  - now apply Forall_firstn.
  - apply IH. now apply Forall_skipn.
Qed.

Lemma Forall_stretch t s (d : list A) : Forall P d -> Forall P (Np.stretch t s d).
Proof.
  revert s d; induction t as [|dt t IH]; intros [|ds s] d H; cbn; auto.
  destruct (ds =? dt); apply Forall_concat.
  - apply Forall_map. eapply Forall_impl; [|apply Forall_chunks; exact H].
    intros c Hc. now apply IH.
  - apply Forall_repeat. now apply IH.
Qed.

Lemma Forall_broadcast_to t (a : ndarray A) d :
  Np.broadcast_to t a = Ok d -> Forall P (data a) -> Forall P d.
Proof.
  unfold Np.broadcast_to. intros H Ha.
  destruct (Np.shape_eqb (shape a) t); [injection H as <-; exact Ha|].
  destruct (Np.broadcast_shapes (shape a) t) as [r|]; [|discriminate].
  destruct (Np.shape_eqb r t); [|discriminate].
  injection H as <-. now apply Forall_stretch.
Qed.

Lemma Forall_zip_with_blk (g : list A -> list A -> list A) vs cs :
  (forall v c, Forall P v -> Forall P c -> Forall P (g v c)) ->
  Forall (Forall P) vs -> Forall (Forall P) cs ->
  Forall (Forall P) (Np.zip_with g vs cs).
Proof.
  intros Hg Hv; revert cs; induction Hv; intros cs Hc; cbn; [constructor|].
  destruct Hc; constructor; auto.
Qed.

Lemma Forall_blk_set_inner sz n v c :
  Forall P v -> Forall P c -> Forall P (Np.blk_set_inner sz n v c).
Proof.
  intros Hv Hc. unfold Np.blk_set_inner.
  repeat (apply Forall_app; split); auto using Forall_firstn, Forall_skipn.
Qed.

Lemma Forall_blk_first_from_second sz c :
  Forall P c -> Forall P (Np.blk_first_from_second sz c).
Proof.
  intros Hc. unfold Np.blk_first_from_second.
  apply Forall_app; split; auto using Forall_firstn, Forall_skipn.
Qed.

Lemma Forall_blk_last_from_previous sz n c :
  Forall P c -> Forall P (Np.blk_last_from_previous sz n c).
Proof.
  intros Hc. unfold Np.blk_last_from_previous.
  apply Forall_app; split; auto using Forall_firstn, Forall_skipn.
Qed.

Lemma Forall_set_inner1 (t v t' : ndarray A) :
  Np.set_inner1 t v = Ok t' -> Forall P (data t) -> Forall P (data v) -> Forall P (data t').
Proof.
  unfold Np.set_inner1. intros H Ht Hv.
  destruct (shape t) as [|d0 [|d1 rest]]; try discriminate.
  bind_inv H. injection H as <-. cbn [data].
  apply Forall_concat, Forall_zip_with_blk.
  - intros; now apply Forall_blk_set_inner.
  - apply Forall_chunks. eapply Forall_broadcast_to; eauto.
  - now apply Forall_chunks.
Qed.

Lemma Forall_copy_first1 (t t' : ndarray A) :
  Np.copy_first1 t = Ok t' -> Forall P (data t) -> Forall P (data t').
Proof.
  unfold Np.copy_first1. intros H Ht.
  destruct (shape t) as [|d0 [|d1 rest]]; try discriminate.
  destruct (d1 <? 2); [discriminate|]. injection H as <-. cbn [data].
  apply Forall_concat, Forall_map.
  eapply Forall_impl; [|apply Forall_chunks; exact Ht].
  intros c. apply Forall_blk_first_from_second.
Qed.

Lemma Forall_copy_last1 (t t' : ndarray A) :
  Np.copy_last1 t = Ok t' -> Forall P (data t) -> Forall P (data t').
Proof.
  unfold Np.copy_last1. intros H Ht.
  destruct (shape t) as [|d0 [|d1 rest]]; try discriminate.
  destruct (d1 <? 2); [discriminate|]. injection H as <-. cbn [data].
  apply Forall_concat, Forall_map.
  eapply Forall_impl; [|apply Forall_chunks; exact Ht].
  intros c. apply Forall_blk_last_from_previous.
Qed.

Lemma Forall_set_inner0 (t v t' : ndarray A) :
  Np.set_inner0 t v = Ok t' -> Forall P (data t) -> Forall P (data v) -> Forall P (data t').
Proof.
  unfold Np.set_inner0. intros H Ht Hv.
  destruct (shape t) as [|d0 rest]; try discriminate.
  bind_inv H. injection H as <-. cbn [data].
  apply Forall_blk_set_inner; [|exact Ht]. eapply Forall_broadcast_to; eauto.
Qed.

Lemma Forall_copy_first0 (t t' : ndarray A) :
  Np.copy_first0 t = Ok t' -> Forall P (data t) -> Forall P (data t').
Proof.
  unfold Np.copy_first0. intros H Ht.
  destruct (shape t) as [|d0 rest]; try discriminate.
  destruct (d0 <? 2); [discriminate|]. injection H as <-. cbn [data].
  now apply Forall_blk_first_from_second.
Qed.

Lemma Forall_copy_last0 (t t' : ndarray A) :
  Np.copy_last0 t = Ok t' -> Forall P (data t) -> Forall P (data t').
Proof.
  unfold Np.copy_last0. intros H Ht.
  destruct (shape t) as [|d0 rest]; try discriminate.
  destruct (d0 <? 2); [discriminate|]. injection H as <-. cbn [data].
  now apply Forall_blk_last_from_previous.
Qed.

End Elements.

Lemma Forall_zip_with {A B C : Type} (P : C -> Prop) (f : A -> B -> C) l m :
  (forall x y, P (f x y)) -> Forall P (Np.zip_with f l m).
Proof.
  intros Hf; revert m; induction l as [|x l IH]; intros [|y m]; cbn; constructor; auto.
Qed.

Lemma Forall_binop {A B C : Type} (P : C -> Prop) (f : A -> B -> C) a b r :
  (forall x y, P (f x y)) -> Np.binop f a b = Ok r -> Forall P (data r).
Proof.
  unfold Np.binop. intros Hf H.
  destruct (Np.broadcast_shapes (shape a) (shape b)); [|discriminate].
  bind_inv H. injection H as <-. cbn [data]. now apply Forall_zip_with.
Qed.

(** ** Grid metrics *)

Section Metrics.
Local Open Scope R_scope.

Lemma arctan2_not_inf (y x : npfloat) : F.not_inf (F.arctan2 y x).
Proof.
  destruct y, x; cbn; auto. destruct (Rlt_dec r 0); exact I.
Qed.

Lemma mul_Fin_not_inf (c : R) (x : npfloat) : F.not_inf x -> F.not_inf (F.mul (Fin c) x).
Proof. destruct x; cbn; tauto. Qed.

(** A distance is a number or nan. *)
Lemma haversine_dist_not_inf lon1 lat1 lon2 lat2 h :
  haversine_dist lon1 lat1 lon2 lat2 = Ok h -> Forall F.not_inf (data h).
Proof.
  unfold haversine_dist. intros H. bind_inv H. injection H as <-.
  unfold haversine_c_val in E0. bind_inv E0. injection E0 as <-.
  cbn [Np.map data]. rewrite !Forall_map.
  eapply Forall_impl; [|eapply Forall_binop; [exact arctan2_not_inf | eassumption]].
  intros x Hx. now apply mul_Fin_not_inf, mul_Fin_not_inf.
Qed.

Lemma reciprocal_positive (x : npfloat) :
  F.not_inf x -> positive x ->
  positive (F.reciprocal x) /\ F.mul (F.reciprocal x) x = Fin 1.
Proof.
  destruct x as [r| | |]; cbn; try contradiction. intros _ Hr.
  destruct (Req_dec_T r 0) as [E|E]; [lra|]. cbn. split.
  - unfold Rdiv. rewrite Rmult_1_l. now apply Rinv_0_lt_compat.
  - f_equal. field. exact E.
Qed.

(** C9: after [get_aviso_f_pm_pn], at every grid point where [d_x] (resp.
    [d_y]) is strictly positive, [p_m] (resp. [p_n]) is strictly positive
    and its product with [d_x] (resp. [d_y]) is 1 (exactly so in exact
    arithmetic). *)
Theorem C9_inverse_spacings (lonpad latpad : ndarray npfloat) (m : Metrics)
  (k : nat) :
  get_aviso_f_pm_pn lonpad latpad = Ok m ->
  (forall x, nth_error (data (d_x m)) k = Some x -> positive x ->
     exists p, nth_error (data (p_m m)) k = Some p /\ positive p /\
               F.mul p x = Fin 1) /\
  (forall y, nth_error (data (d_y m)) k = Some y -> positive y ->
     exists p, nth_error (data (p_n m)) k = Some p /\ positive p /\
               F.mul p y = Fin 1).
Proof.
  unfold get_aviso_f_pm_pn. intros H. bind_inv H. injection H as <-.
  cbn [d_x d_y p_m p_n Np.map data].
  assert (Z0 : Forall F.not_inf (data (Np.full (shape lonpad) (Fin 0)))).
  { cbn. apply Forall_repeat. exact I. }
  repeat match goal with
    | E : haversine_dist _ _ _ _ = Ok _ |- _ => apply haversine_dist_not_inf in E
    | E : Np.set_inner1 _ ?v = Ok _, Hv : Forall F.not_inf (data ?v) |- _ =>
        apply (Forall_set_inner1 F.not_inf) in E; [|exact Z0|exact Hv]
    | E : Np.set_inner0 _ ?v = Ok _, Hv : Forall F.not_inf (data ?v) |- _ =>
        apply (Forall_set_inner0 F.not_inf) in E; [|exact Z0|exact Hv]
    | E : Np.copy_first1 ?t = Ok _, Ht : Forall F.not_inf (data ?t) |- _ =>
        apply (Forall_copy_first1 F.not_inf) in E; [|exact Ht]
    | E : Np.copy_last1 ?t = Ok _, Ht : Forall F.not_inf (data ?t) |- _ =>
        apply (Forall_copy_last1 F.not_inf) in E; [|exact Ht]
    | E : Np.copy_first0 ?t = Ok _, Ht : Forall F.not_inf (data ?t) |- _ =>
        apply (Forall_copy_first0 F.not_inf) in E; [|exact Ht]
    | E : Np.copy_last0 ?t = Ok _, Ht : Forall F.not_inf (data ?t) |- _ =>
        apply (Forall_copy_last0 F.not_inf) in E; [|exact Ht]
    end.
  split; intros x Hx Px; exists (F.reciprocal x);
    rewrite nth_error_map, Hx; apply nth_error_In in Hx;
    match goal with
    | N : Forall F.not_inf ?l, Hx : In x ?l |- _ =>
        rewrite Forall_forall in N;
        destruct (reciprocal_positive x (N x Hx) Px); auto
    end.
Qed.

Lemma metrics_of_a_small_grid :
  exists m,
    get_aviso_f_pm_pn
      (mkarr [2%nat; 3%nat] [Fin 0; Fin 180; Fin 360; Fin 0; Fin 180; Fin 360])
      (mkarr [2%nat; 3%nat] [Fin 0; Fin 0; Fin 0; Fin 0; Fin 0; Fin 0]) = Ok m /\
    nth_error (data (d_x m)) 1 = Some (Fin (6371315.0 * (2 * (PI / 2)))).
Proof.
  eexists. split.
  - unfold get_aviso_f_pm_pn.
    cbn -[PI sin cos sqrt atan Rplus Rmult Rminus Rdiv Rinv Ropp IZR Rlt_dec Req_dec_T
          F.atan2R].
    reflexivity.
  - cbn [d_x data nth_error]. f_equal.
    match goal with
    | |- context [F.arctan2 (if Rlt_dec ?a 0 then _ else _) _] =>
        assert (Ha : a = 1)
    end.
    { replace (((180 + 360) * 0.5 + - ((0 + 180) * 0.5)) * (PI / 180) * 0.5)
        with (PI / 2) by lra.
      replace (((0 + 0) * 0.5 + - ((0 + 0) * 0.5)) * (PI / 180) * 0.5) with 0 by lra.
      replace ((0 + 0) * 0.5 * (PI / 180)) with 0 by lra.
      rewrite sin_PI2, sin_0, cos_0. ring. }
    rewrite !Ha. replace (1 + Ropp 1) with 0 by lra.
    destruct (Rlt_dec 1 0); [lra|]. destruct (Rlt_dec 0 0); [lra|].
    rewrite sqrt_1, sqrt_0. cbn [F.arctan2]. unfold F.atan2R.
    destruct (Rlt_dec 0 0); [lra|]. destruct (Rlt_dec 0 1); [|lra]. reflexivity.
Qed.

Lemma C9_inverse_spacings_witness :
  exists m x,
    get_aviso_f_pm_pn
      (mkarr [2%nat; 3%nat] [Fin 0; Fin 180; Fin 360; Fin 0; Fin 180; Fin 360])
      (mkarr [2%nat; 3%nat] [Fin 0; Fin 0; Fin 0; Fin 0; Fin 0; Fin 0]) = Ok m /\
    nth_error (data (d_x m)) 1 = Some x /\ positive x /\
    exists p, nth_error (data (p_m m)) 1 = Some p /\ positive p /\ F.mul p x = Fin 1.
Proof.
  destruct metrics_of_a_small_grid as (m & Hm & Hx).
  exists m, (Fin (6371315.0 * (2 * (PI / 2)))).
  assert (Px : positive (Fin (6371315.0 * (2 * (PI / 2))))).
  { cbn. pose proof PI_RGT_0. lra. }
  repeat split; [exact Hm | exact Hx | exact Px |].
  exact (proj1 (C9_inverse_spacings _ _ m 1%nat Hm) _ Hx Px).
Defined.

End Metrics.

(** ** Mask of the speed *)

(** C3, as stated, fails: on a 3 x 3 padded window with pad 1, velocities 1
    and a grid mask that marks every cell as ocean (1), [uspd] on the one
    cell of the unpad window carries the mask value 1 over as the flag of an
    invalid element: the cell that the claim calls valid ocean is flagged
    invalid. *)
Theorem C3_uspd_flags_the_ocean_cell :
  exists w u_val v_val eke r,
    set_index_padding (plain_window 1 2 1 2) (3, 3)%Z 1 = Ok w /\
    get_eke w (Plain (Np.full [3; 3] (Fin 1))) (Plain (Np.full [3; 3] (Fin 1)))
      = Ok (u_val, v_val, eke) /\
    uspd w u_val v_val (Np.full [3; 3] true) = Ok r /\
    ma_mask r = mkarr [1; 1] [true].
Proof.
  do 5 eexists. split; [reflexivity|]. split; [reflexivity|].
  split; reflexivity.
Qed.

(** A cell where the grid mask is 0 is left valid. *)
Lemma uspd_leaves_the_land_cell_valid :
  exists w u_val v_val eke r,
    set_index_padding (plain_window 1 2 1 2) (3, 3)%Z 1 = Ok w /\
    get_eke w (Plain (Np.full [3; 3] (Fin 1))) (Plain (Np.full [3; 3] (Fin 1)))
      = Ok (u_val, v_val, eke) /\
    uspd w u_val v_val (Np.full [3; 3] false) = Ok r /\
    ma_mask r = mkarr [1; 1] [false].
Proof.
  do 5 eexists. split; [reflexivity|]. split; [reflexivity|].
  split; reflexivity.
Qed.

(** ** Geostrophic velocity of a flat field *)

Section FlatField.
Local Open Scope R_scope.

Lemma zero_or_nan_mul (x y : npfloat) : F.zero_or_nan x -> F.zero_or_nan (F.mul x y).
Proof.
  intros [-> | ->]; [|now right].
  destruct y as [r| | |]; cbn.
  - left. f_equal. ring.
  - right. unfold F.scale_inf.
    destruct (Rlt_dec 0 0); [lra|]. reflexivity.
  - right. unfold F.scale_inf.
    destruct (Rlt_dec 0 0); [lra|]. reflexivity.
  - now right.
Qed.

Lemma zero_or_nan_add (x y : npfloat) :
  F.zero_or_nan x -> F.zero_or_nan y -> F.zero_or_nan (F.add x y).
Proof.
  intros [-> | ->] [-> | ->]; cbn; try (now right).
  left. f_equal. ring.
Qed.

Lemma zero_or_nan_sub_same (c : R) : F.zero_or_nan (F.sub (Fin c) (Fin c)).
Proof. left. cbn. f_equal. ring. Qed.

Lemma zero_or_nan_mul_inf (x : npfloat) : F.zero_or_nan x -> F.mul x NInf = NaN.
Proof.
  intros [-> | ->]; cbn; [|reflexivity].
  unfold F.scale_inf. destruct (Rlt_dec 0 0); [lra|]. reflexivity.
Qed.

(** On the equator [f] is 0 and [gof] is infinite. *)
Lemma gof_at_latitude_zero :
  F.div (Fin GRAVITY)
    (F.div (F.mul (F.mul (F.sin (F.deg2rad (Fin 0))) (Fin 4)) (Fin PI)) (Fin 86400))
  = PInf.
Proof.
  cbn. destruct (Req_dec_T 86400 0) as [E|_]; [lra|].
  replace (0 * (PI / 180)) with 0 by ring. rewrite sin_0.
  destruct (Req_dec_T (0 * 4 * PI / 86400) 0) as [_|N]; [|exfalso; apply N; field].
  unfold F.scale_inf, GRAVITY. destruct (Rlt_dec 0 9.81); [reflexivity|lra].
Qed.

Lemma length_zip_with {A B C : Type} (f : A -> B -> C) l m :
  length (Np.zip_with f l m) = Nat.min (length l) (length m).
Proof.
  revert m; induction l as [|x l IH]; intros [|y m]; cbn; auto.
Qed.

Lemma Forall_zip_with2 {A B C : Type} (P : A -> Prop) (Q : B -> Prop) (S : C -> Prop)
  (f : A -> B -> C) l m :
  (forall x y, P x -> Q y -> S (f x y)) ->
  Forall P l -> Forall Q m -> Forall S (Np.zip_with f l m).
Proof.
  intros Hf Hl; revert m; induction Hl; intros m Hm; cbn; [constructor|].
  destruct Hm; constructor; auto.
Qed.

Lemma chunks_length {A : Type} n k (d : list A) :
  length d = (n * k)%nat -> Forall (fun c => length c = k) (Np.chunks n k d).
Proof.
  revert d; induction n as [|n IH]; intros d H; cbn; constructor.
  - rewrite length_firstn. nia.
  - apply IH. rewrite length_skipn. nia.
Qed.

Lemma length_concat_map {A : Type} (f : list A -> list A) (ll : list (list A)) k k' :
  Forall (fun c => length c = k) ll ->
  (forall c, length c = k -> length (f c) = k') ->
  length (concat (map f ll)) = (length ll * k')%nat.
Proof.
  intros H Hf; induction H; cbn; [reflexivity|].
  rewrite length_app, IHForall, Hf by assumption. reflexivity.
Qed.

Lemma chunks_count {A : Type} n k (d : list A) : length (Np.chunks n k d) = n.
Proof. revert d; induction n; intros d; cbn; auto. Qed.

(** A zero times finite numbers is zero. *)
Lemma zip_with_mul_zero (l : list npfloat) k :
  Forall F.is_finite l -> length l = k ->
  Np.zip_with F.mul (repeat (Fin 0) k) l = repeat (Fin 0) k.
Proof.
  intros H; revert k; induction H as [|x l Hx Hl IH]; intros k <-; cbn; [reflexivity|].
  rewrite IH by reflexivity. destruct x; cbn in Hx; try contradiction.
  cbn. do 2 f_equal. ring.
Qed.

Lemma revert_repeat (m : list bool) (z : npfloat) k :
  Ma.revert m (repeat z k) (repeat z k) = repeat z k.
Proof.
  revert m; induction k as [|k IH]; intros [|b m]; cbn; try reflexivity.
  rewrite IH. now destruct b.
Qed.

Lemma is_finite_add (x y : npfloat) :
  F.is_finite x -> F.is_finite y -> F.is_finite (F.add x y).
Proof. destruct x, y; cbn; tauto. Qed.

Lemma half_interp_masked_zero (s : list nat) (ma mb : ndarray bool) :
  shape ma = s -> shape mb = s ->
  exists mm, half_interp (mkma (Np.full s (Fin 0)) ma) (mkma (Np.full s (Fin 0)) mb)
             = Ok (mkma (Np.full s (Fin 0)) mm).
Proof.
  intros Ha Hb. unfold half_interp. cbn [al_add al_mul masked_like].
  unfold Ma.binop. cbn [ma_data ma_mask].
  rewrite binop_full. cbn [bind].
  rewrite (binop_same_shape orb ma mb) by congruence. cbn [bind].
  unfold Np.full, Np.broadcast_to. cbn [shape data].
  rewrite shape_eqb_refl. cbn [bind].
  unfold Ma.binop_scalar. cbn [ma_data ma_mask shape data F.add].
  replace (0 + 0) with 0 by ring.
  rewrite !revert_repeat, map_repeat. cbn [F.mul].
  replace (0 * 0.5) with 0 by ring. rewrite revert_repeat. eexists. reflexivity.
Qed.

Lemma u2rho_2d_zero (M l : nat) (um : ndarray bool) :
  shape um = [M; l] -> (1 <= l)%nat -> M <> 1%nat ->
  u2rho_2d (mkma (Np.full [M; l] (Fin 0)) um) = Ok (Np.full [M; (l + 1)%nat] (Fin 0)).
Proof.
  intros Hs Hl HM. unfold u2rho_2d, uu2ur.
  cbn [al_shape al_init1 al_tail1 al_asarray masked_like ma_data Np.full shape].
  change (mkarr [M; l] (repeat (Fin 0) (Np.size_of [M; l]))) with (Np.full [M; l] (Fin 0)).
  unfold Ma.lift. cbn [ma_data ma_mask]. rewrite init1_full, tail1_full. cbn [bind].
  unfold Np.init1 at 1, Np.tail1 at 1. rewrite Hs. cbn [bind].
  destruct (half_interp_masked_zero [M; pred l]
              (mkarr [M; pred l]
                 (concat (map (firstn (pred l * Np.size_of []))
                            (Np.chunks M (l * Np.size_of []) (data um)))))
              (mkarr [M; pred l]
                 (concat (map (skipn (Np.size_of []))
                            (Np.chunks M (l * Np.size_of []) (data um)))))
              eq_refl eq_refl) as [mm ->].
  cbn [bind ma_data].
  pose proof (fill1_full M (pred l) [] (Fin 0) (Fin 0) (or_intror eq_refl)) as H.
  replace (pred l + 2)%nat with (l + 1)%nat in H by lia.
  unfold bind in H |- *.
  destruct (Np.set_inner1 _ _) as [t1|]; [|discriminate].
  destruct (Np.copy_first1 t1) as [t2|]; [|discriminate].
  rewrite H. unfold Np.full. rewrite squeeze_2d by lia. reflexivity.
Qed.

Lemma v2rho_2d_zero (k N : nat) (vm : ndarray bool) :
  shape vm = [k; N] -> (1 <= k)%nat -> N <> 1%nat ->
  v2rho_2d (mkma (Np.full [k; N] (Fin 0)) vm) = Ok (Np.full [(k + 1)%nat; N] (Fin 0)).
Proof.
  intros Hs Hk HN. unfold v2rho_2d, vv2vr.
  cbn [al_shape al_init0 al_tail0 al_asarray masked_like ma_data Np.full shape].
  change (mkarr [k; N] (repeat (Fin 0) (Np.size_of [k; N]))) with (Np.full [k; N] (Fin 0)).
  unfold Ma.lift. cbn [ma_data ma_mask]. rewrite init0_full, tail0_full. cbn [bind].
  unfold Np.init0 at 1, Np.tail0 at 1. rewrite Hs. cbn [bind].
  destruct (half_interp_masked_zero [pred k; N]
              (mkarr [pred k; N] (firstn (pred k * Np.size_of [N]) (data vm)))
              (mkarr [pred k; N] (skipn (Np.size_of [N]) (data vm)))
              eq_refl eq_refl) as [mm ->].
  cbn [bind ma_data].
  pose proof (fill0_full (pred k) [N] (Fin 0) (Fin 0) (or_intror eq_refl)) as H.
  replace (pred k + 2)%nat with (k + 1)%nat in H by lia.
  unfold bind in H |- *.
  destruct (Np.set_inner0 _ _) as [t1|]; [|discriminate].
  destruct (Np.copy_first0 t1) as [t2|]; [|discriminate].
  rewrite H. unfold Np.full. rewrite squeeze_2d by lia. reflexivity.
Qed.


(** C4, as stated, fails on the equator.  On the 3 x 3 grid of longitudes
    0, 1, 2 and latitudes -1, 0, 1 with the flat field 5 and nothing masked,
    [u] at the first point of the row of latitude 0 is nan: the zero
    gradient is multiplied by an infinite [gof]. *)
Lemma C4_equator_counterexample :
  exists m vel,
    get_aviso_f_pm_pn
      (mkarr [3%nat; 3%nat]
         [Fin 0; Fin 1; Fin 2; Fin 0; Fin 1; Fin 2; Fin 0; Fin 1; Fin 2])
      (mkarr [3%nat; 3%nat]
         [Fin (-1); Fin (-1); Fin (-1); Fin 0; Fin 0; Fin 0; Fin 1; Fin 1; Fin 1])
    = Ok m /\
    set_geostrophic_velocity m
      (Np.full [3%nat; 2%nat] false) (Np.full [2%nat; 3%nat] false)
      (mkVelocity (Np.full [3%nat; 3%nat] (Fin 0)) (Np.full [3%nat; 3%nat] (Fin 0)))
      (mkma (Np.full [3%nat; 3%nat] (Fin 5)) (Np.full [3%nat; 3%nat] false))
    = Ok vel /\
    nth_error (data (upad vel)) 3 = Some NaN.
Proof.
  eexists. eexists. split; [|split].
  - unfold get_aviso_f_pm_pn.
    cbn -[F.add F.sub F.mul F.div F.neg F.sin F.cos F.sqrt F.arctan2 F.deg2rad
          F.reciprocal F.square].
    reflexivity.
  - unfold set_geostrophic_velocity.
    cbn -[F.add F.sub F.mul F.div F.neg F.sin F.cos F.sqrt F.arctan2 F.deg2rad
          F.reciprocal F.square].
    reflexivity.
  - cbn [upad data nth_error]. f_equal.
    rewrite gof_at_latitude_zero. cbn [F.neg].
    apply zero_or_nan_mul_inf.
    repeat first [ apply zero_or_nan_sub_same | apply zero_or_nan_mul
                 | apply zero_or_nan_add ].
Qed.

Lemma nth_error_zip_with_repeat {A B C : Type} (f : A -> B -> C) (z : A) n l k y :
  nth_error l k = Some y -> (k < n)%nat ->
  nth_error (Np.zip_with f (repeat z n) l) k = Some (f z y).
Proof.
  revert n k; induction l as [|x l IH]; intros n k H Hk; [destruct k; discriminate|].
  destruct n as [|n]; [lia|]. destruct k as [|k]; cbn in *.
  - now injection H as ->.
  - apply IH; [exact H | lia].
Qed.

Lemma mul_zero_cases (g : npfloat) :
  F.mul (Fin 0) g = match g with Fin _ => Fin 0 | _ => NaN end.
Proof.
  destruct g; cbn; try reflexivity.
  - f_equal. ring.
  - unfold F.scale_inf. destruct (Rlt_dec 0 0); [lra|]. reflexivity.
  - unfold F.scale_inf. destruct (Rlt_dec 0 0); [lra|]. reflexivity.
Qed.

Lemma mul_zero_neg_cases (g : npfloat) :
  F.mul (Fin 0) (F.neg g) = match g with Fin _ => Fin 0 | _ => NaN end.
Proof. rewrite mul_zero_cases. now destruct g. Qed.

(** C4, amended: for a flat field on a padded window of at least two rows
    and two columns, with finite inverse spacings [p_m] and [p_n] and whatever
    the masks, [u] and [v] are 0 at every point where [gof] is finite, and
    nan at every point where [gof] is not (a latitude of zero). *)
Theorem C4_flat_field_velocity (M N : nat) (c : R) (m : Metrics)
  (umask vmask : ndarray bool) (vel : Velocity) (zeta : masked) :
  (2 <= M)%nat -> (2 <= N)%nat ->
  ma_data zeta = Np.full [M; N] (Fin c) ->
  shape (p_m m) = [M; N] -> Np.wf (p_m m) -> Forall F.is_finite (data (p_m m)) ->
  shape (p_n m) = [M; N] -> Np.wf (p_n m) -> Forall F.is_finite (data (p_n m)) ->
  shape (gof m) = [M; N] -> Np.wf (gof m) ->
  shape umask = [M; pred N] -> shape vmask = [pred M; N] ->
  shape (upad vel) = [M; N] -> shape (vpad vel) = [M; N] ->
  exists vel',
    set_geostrophic_velocity m umask vmask vel zeta = Ok vel' /\
    shape (upad vel') = [M; N] /\ shape (vpad vel') = [M; N] /\
    forall k g, nth_error (data (gof m)) k = Some g ->
      nth_error (data (upad vel')) k
        = Some (match g with Fin _ => Fin 0 | _ => NaN end) /\
      nth_error (data (vpad vel')) k
        = Some (match g with Fin _ => Fin 0 | _ => NaN end).
Proof.
  intros HM HN Hz Hpm Wpm Fpm Hpn Wpn Fpn Hg Wg Hum Hvm Hup Hvp.
  unfold set_geostrophic_velocity. rewrite Hz.
  destruct (p_n m) as [spn dpn]. destruct (p_m m) as [spm dpm].
  destruct (gof m) as [sg dg]. destruct (upad vel) as [su du].
  destruct (vpad vel) as [sv dv].
  cbn [shape data] in *. unfold Np.wf in *. cbn [shape data] in *. subst.
  (* the first half: u *)
  rewrite tail0_full, init0_full. cbn [bind].
  unfold Np.tail0 at 1, Np.init0 at 1. cbn [shape data bind].
  rewrite binop_full. cbn [bind].
  rewrite binop_same_shape by reflexivity. cbn [bind shape data].
  rewrite map_full. rewrite binop_same_shape by reflexivity.
  cbn [bind shape data Np.full F.sub F.neg F.add F.mul].
  replace ((c + - c) * 0.5) with 0 by ring.
  rewrite zip_with_mul_zero.
  2:{ apply (Forall_zip_with2 F.is_finite F.is_finite); auto using is_finite_add.
      - now apply Forall_skipn.
      - now apply Forall_firstn. }
  2:{ rewrite length_zip_with, length_skipn, length_firstn, Wpn.
      unfold Np.size_of. cbn [fold_right]. nia. }
  unfold Ma.array at 1. cbn [shape]. rewrite Hvm, shape_eqb_refl. cbn [bind].
  change (mkarr [pred M; N] (repeat (Fin 0) (Np.size_of [pred M; N])))
    with (Np.full [pred M; N] (Fin 0)).
  rewrite (v2rho_2d_zero (pred M) N vmask) by (auto; lia). cbn [bind].
  replace (pred M + 1)%nat with M by lia.
  unfold Np.set_all, Np.inplace, Np.broadcast_to.
  cbn [shape data Np.full Np.map]. rewrite !shape_eqb_refl. cbn [bind shape data].
  rewrite !shape_eqb_refl. cbn [bind shape data].
  (* the second half: v *)
  change (mkarr [M; N] (repeat (Fin c) (Np.size_of [M; N]))) with (Np.full [M; N] (Fin c)).
  rewrite tail1_full, init1_full. cbn [bind].
  unfold Np.tail1 at 1, Np.init1 at 1. cbn [shape data bind].
  rewrite binop_full. cbn [bind].
  rewrite binop_same_shape by reflexivity. cbn [bind shape data].
  rewrite map_full. rewrite binop_same_shape by reflexivity.
  cbn [bind shape data Np.full F.sub F.neg F.add F.mul].
  replace ((c + - c) * 0.5) with 0 by ring.
  rewrite zip_with_mul_zero.
  2:{ apply (Forall_zip_with2 F.is_finite F.is_finite); auto using is_finite_add.
      - apply Forall_concat, Forall_map.
        eapply Forall_impl; [|apply Forall_chunks; exact Fpm].
        intros a. apply Forall_skipn.
      - apply Forall_concat, Forall_map.
        eapply Forall_impl; [|apply Forall_chunks; exact Fpm].
        intros a. apply Forall_firstn. }
  2:{ rewrite length_zip_with.
      rewrite (length_concat_map _ _ (N * Np.size_of []) (pred N * Np.size_of [])).
      2:{ apply chunks_length. rewrite Wpm. unfold Np.size_of. cbn [fold_right]. lia. }
      2:{ intros a Ha. rewrite length_skipn, Ha. unfold Np.size_of. cbn. lia. }
      rewrite (length_concat_map _ _ (N * Np.size_of []) (pred N * Np.size_of [])).
      2:{ apply chunks_length. rewrite Wpm. unfold Np.size_of. cbn [fold_right]. lia. }
      2:{ intros a Ha. rewrite length_firstn, Ha. unfold Np.size_of. cbn. lia. }
      rewrite chunks_count. unfold Np.size_of. cbn [fold_right]. lia. }
  unfold Ma.array at 1. cbn [shape]. rewrite Hum, shape_eqb_refl. cbn [bind].
  change (mkarr [M; pred N] (repeat (Fin 0) (Np.size_of [M; pred N])))
    with (Np.full [M; pred N] (Fin 0)).
  rewrite (u2rho_2d_zero M (pred N) umask) by (auto; lia). cbn [bind].
  replace (pred N + 1)%nat with N by lia.
  cbn [shape data Np.full Np.map]. rewrite !shape_eqb_refl. cbn [bind shape data].
  rewrite !shape_eqb_refl. cbn [bind shape data].
  eexists. split; [reflexivity|]. cbn [upad vpad shape data].
  split; [reflexivity|]. split; [reflexivity|].
  intros k g Hk.
  assert (Hlt : (k < Np.size_of [M; N])%nat).
  { rewrite <- Wg. apply nth_error_Some. congruence. }
  split.
  - rewrite <- mul_zero_neg_cases.
    apply nth_error_zip_with_repeat; [|exact Hlt].
    now apply map_nth_error.
  - rewrite <- mul_zero_cases.
    now apply nth_error_zip_with_repeat.
Qed.

Lemma C4_flat_field_velocity_witness :
  exists vel',
    set_geostrophic_velocity
      (mkMetrics (Np.full [2%nat; 2%nat] (Fin 0))
                 (mkarr [2%nat; 2%nat] [Fin 1; PInf; Fin 2; Fin 3])
                 (Np.full [2%nat; 2%nat] (Fin 1)) (Np.full [2%nat; 2%nat] (Fin 1))
                 (Np.full [2%nat; 2%nat] (Fin 1)) (Np.full [2%nat; 2%nat] (Fin 1)))
      (Np.full [2%nat; 1%nat] true) (Np.full [1%nat; 2%nat] false)
      (mkVelocity (Np.full [2%nat; 2%nat] (Fin 7)) (Np.full [2%nat; 2%nat] (Fin 7)))
      (mkma (Np.full [2%nat; 2%nat] (Fin 5)) (Np.full [2%nat; 2%nat] false))
    = Ok vel' /\
    shape (upad vel') = [2%nat; 2%nat] /\ shape (vpad vel') = [2%nat; 2%nat] /\
    forall k g, nth_error [Fin 1; PInf; Fin 2; Fin 3] k = Some g ->
      nth_error (data (upad vel')) k
        = Some (match g with Fin _ => Fin 0 | _ => NaN end) /\
      nth_error (data (vpad vel')) k
        = Some (match g with Fin _ => Fin 0 | _ => NaN end).
Proof.
  apply (C4_flat_field_velocity 2 2 5); try reflexivity; try apply le_n;
    repeat constructor.
Defined.

End FlatField.

(** ** A field of another shape than the metrics *)

Section ShapeMismatch.

Lemma broadcast_rev_length s t r :
  Np.broadcast_rev s t = Some r -> length r = Nat.max (length s) (length t).
Proof.
  revert t r; induction s as [|d s IH]; intros t r H.
  - destruct t; injection H as <-; reflexivity.
  - destruct t as [|e t]; [injection H as <-; cbn; lia|].
    cbn in H. destruct (Np.broadcast_rev s t) as [r'|] eqn:E; [|discriminate].
    apply IH in E.
    destruct (d =? e); [|destruct (d =? 1); [|destruct (e =? 1); [|discriminate]]];
      injection H as <-; cbn; lia.
Qed.

Lemma broadcast_shapes_length s t r :
  Np.broadcast_shapes s t = Some r -> length r = Nat.max (length s) (length t).
Proof.
  unfold Np.broadcast_shapes. intros H.
  destruct (Np.broadcast_rev (rev s) (rev t)) as [r'|] eqn:E; [|discriminate].
  injection H as <-. apply broadcast_rev_length in E.
  rewrite length_rev, E, !length_rev. reflexivity.
Qed.

Lemma bc1_step (d e : nat) r r' :
  (if d =? e then Some (d :: r)
   else if d =? 1 then Some (e :: r)
   else if e =? 1 then Some (d :: r) else None) = Some r' ->
  exists z, r' = z :: r /\ Np.bc1 d e z.
Proof.
  unfold Np.bc1.
  destruct (Nat.eqb_spec d e); [|destruct (Nat.eqb_spec d 1); [|destruct (Nat.eqb_spec e 1)]];
    intros H; try discriminate; injection H as <-; eexists; split; eauto.
Qed.

Lemma broadcast_shapes_2_2 x1 x2 y1 y2 r :
  Np.broadcast_shapes [x1; x2] [y1; y2] = Some r ->
  exists z1 z2, r = [z1; z2] /\ Np.bc1 x1 y1 z1 /\ Np.bc1 x2 y2 z2.
Proof.
  unfold Np.broadcast_shapes. cbn. intros H.
  destruct (if x1 =? y1 then _ else _) as [r1|] eqn:E1; [|discriminate].
  apply bc1_step in E1 as (z1 & -> & B1).
  destruct (if x2 =? y2 then _ else _) as [r2|] eqn:E2; [|discriminate].
  apply bc1_step in E2 as (z2 & -> & B2).
  injection H as <-. exists z1, z2. auto.
Qed.

Lemma broadcast_shapes_1_2 p y1 y2 r :
  Np.broadcast_shapes [p] [y1; y2] = Some r ->
  exists z2, r = [y1; z2] /\ Np.bc1 p y2 z2.
Proof.
  unfold Np.broadcast_shapes. cbn. intros H.
  destruct (if p =? y2 then _ else _) as [r2|] eqn:E2; [|discriminate].
  apply bc1_step in E2 as (z2 & -> & B2).
  injection H as <-. exists z2. auto.
Qed.

Lemma tail0_ok {A : Type} (a r : ndarray A) :
  Np.tail0 a = Ok r -> exists d0 rest, shape a = d0 :: rest /\ shape r = pred d0 :: rest.
Proof.
  unfold Np.tail0. destruct (shape a) as [|d0 rest]; [discriminate|].
  intros H; injection H as <-. eauto.
Qed.

Lemma init0_ok {A : Type} (a r : ndarray A) :
  Np.init0 a = Ok r -> exists d0 rest, shape a = d0 :: rest /\ shape r = pred d0 :: rest.
Proof.
  unfold Np.init0. destruct (shape a) as [|d0 rest]; [discriminate|].
  intros H; injection H as <-. eauto.
Qed.

Lemma tail1_ok {A : Type} (a r : ndarray A) :
  Np.tail1 a = Ok r ->
  exists d0 d1 rest, shape a = d0 :: d1 :: rest /\ shape r = d0 :: pred d1 :: rest.
Proof.
  unfold Np.tail1. destruct (shape a) as [|d0 [|d1 rest]]; try discriminate.
  intros H; injection H as <-. eauto.
Qed.

Lemma init1_ok {A : Type} (a r : ndarray A) :
  Np.init1 a = Ok r ->
  exists d0 d1 rest, shape a = d0 :: d1 :: rest /\ shape r = d0 :: pred d1 :: rest.
Proof.
  unfold Np.init1. destruct (shape a) as [|d0 [|d1 rest]]; try discriminate.
  intros H; injection H as <-. eauto.
Qed.

Lemma binop_ok_shape {A B C : Type} (f : A -> B -> C) a b r :
  Np.binop f a b = Ok r -> Np.broadcast_shapes (shape a) (shape b) = Some (shape r).
Proof.
  unfold Np.binop. intros H.
  destruct (Np.broadcast_shapes (shape a) (shape b)); [|discriminate].
  bind_inv H. injection H as <-. reflexivity.
Qed.

Lemma broadcast_to_ok {A : Type} t (a : ndarray A) d :
  Np.broadcast_to t a = Ok d ->
  shape a = t \/ Np.broadcast_shapes (shape a) t = Some t.
Proof.
  unfold Np.broadcast_to. intros H.
  destruct (Np.shape_eqb (shape a) t) eqn:E; [left; now apply shape_eqb_eq|].
  destruct (Np.broadcast_shapes (shape a) t) as [r|]; [|discriminate].
  destruct (Np.shape_eqb r t) eqn:E'; [|discriminate].
  apply shape_eqb_eq in E' as ->. now right.
Qed.

Lemma set_all_ok {A : Type} (t v t' : ndarray A) :
  Np.set_all t v = Ok t' ->
  shape v = shape t \/ Np.broadcast_shapes (shape v) (shape t) = Some (shape t).
Proof.
  unfold Np.set_all. intros H. bind_inv H. eapply broadcast_to_ok; eauto.
Qed.

Lemma Ma_array_ok d m x : Ma.array d m = Ok x -> ma_data x = d.
Proof.
  unfold Ma.array. intros H.
  destruct (Np.shape_eqb _ _); [injection H as <-; reflexivity|].
  destruct (_ =? 1); [injection H as <-; reflexivity|].
  destruct (_ =? _); [injection H as <-; reflexivity|discriminate].
Qed.

Lemma set_inner0_shape {A : Type} (t v t' : ndarray A) :
  Np.set_inner0 t v = Ok t' -> shape t' = shape t.
Proof.
  unfold Np.set_inner0. destruct (shape t) eqn:E; [discriminate|].
  intros H. bind_inv H. injection H as <-. cbn. congruence.
Qed.

Lemma set_inner1_shape {A : Type} (t v t' : ndarray A) :
  Np.set_inner1 t v = Ok t' -> shape t' = shape t.
Proof.
  unfold Np.set_inner1. destruct (shape t) as [|d0 [|d1 rest]] eqn:E; try discriminate.
  intros H. bind_inv H. injection H as <-. cbn. congruence.
Qed.

Lemma copy_first0_ok {A : Type} (t t' : ndarray A) :
  Np.copy_first0 t = Ok t' ->
  shape t' = shape t /\ exists d0 rest, shape t = d0 :: rest /\ 2 <= d0.
Proof.
  unfold Np.copy_first0. destruct (shape t) as [|d0 rest] eqn:E; [discriminate|].
  destruct (Nat.ltb_spec d0 2) as [|Hd]; [discriminate|].
  intros Hc. injection Hc as <-. cbn. split; [congruence|]. eauto.
Qed.

Lemma copy_last0_shape {A : Type} (t t' : ndarray A) :
  Np.copy_last0 t = Ok t' -> shape t' = shape t.
Proof.
  unfold Np.copy_last0. destruct (shape t) as [|d0 rest] eqn:E; [discriminate|].
  destruct (d0 <? 2); [discriminate|].
  intros H. injection H as <-. cbn. congruence.
Qed.

Lemma copy_first1_ok {A : Type} (t t' : ndarray A) :
  Np.copy_first1 t = Ok t' ->
  shape t' = shape t /\ exists d0 d1 rest, shape t = d0 :: d1 :: rest /\ 2 <= d1.
Proof.
  unfold Np.copy_first1. destruct (shape t) as [|d0 [|d1 rest]] eqn:E; try discriminate.
  destruct (Nat.ltb_spec d1 2) as [|Hd]; [discriminate|].
  intros Hc. injection Hc as <-. cbn. split; [congruence|]. eauto.
Qed.

Lemma copy_last1_shape {A : Type} (t t' : ndarray A) :
  Np.copy_last1 t = Ok t' -> shape t' = shape t.
Proof.
  unfold Np.copy_last1. destruct (shape t) as [|d0 [|d1 rest]] eqn:E; try discriminate.
  destruct (d1 <? 2); [discriminate|].
  intros H. injection H as <-. cbn. congruence.
Qed.

Lemma v2rho_2d_ok (x : masked) (r : ndarray npfloat) :
  v2rho_2d x = Ok r ->
  exists a b, shape (ma_data x) = [a; b] /\ 1 <= a /\
              shape r = filter (fun d => negb (d =? 1)) [a + 1; b].
Proof.
  unfold v2rho_2d. cbn [al_shape masked_like].
  destruct (shape (ma_data x)) as [|a [|b [|? ?]]]; try discriminate.
  unfold vv2vr. intros H. bind_inv H. injection H as <-.
  apply set_inner0_shape in E2. apply copy_first0_ok in E3 as [E3 (d0 & rest & Es & Hd)].
  apply copy_last0_shape in E4.
  exists a, b. split; [reflexivity|].
  rewrite E2 in Es. cbn in Es. injection Es as <- <-.
  split; [lia|]. unfold Np.squeeze. cbn [shape]. rewrite E4, E3, E2. reflexivity.
Qed.

Lemma u2rho_2d_ok (x : masked) (r : ndarray npfloat) :
  u2rho_2d x = Ok r ->
  exists a b, shape (ma_data x) = [a; b] /\ 1 <= b /\
              shape r = filter (fun d => negb (d =? 1)) [a; b + 1].
Proof.
  unfold u2rho_2d. cbn [al_shape masked_like].
  destruct (shape (ma_data x)) as [|a [|b [|? ?]]]; try discriminate.
  unfold uu2ur. intros H. bind_inv H. injection H as <-.
  apply set_inner1_shape in E2.
  apply copy_first1_ok in E3 as [E3 (d0 & d1 & rest & Es & Hd)].
  apply copy_last1_shape in E4.
  exists a, b. split; [reflexivity|].
  rewrite E2 in Es. cbn in Es. injection Es as <- <- <-.
  split; [lia|]. unfold Np.squeeze. cbn [shape]. rewrite E4, E3, E2. reflexivity.
Qed.

Lemma stored_2d (p q M N : nat) :
  [p; q] = [M; N] \/ Np.broadcast_shapes [p; q] [M; N] = Some [M; N] ->
  Np.bc1 p M M /\ Np.bc1 q N N.
Proof.
  intros [E | E].
  - injection E as -> ->. unfold Np.bc1. auto.
  - apply broadcast_shapes_2_2 in E as (z1 & z2 & Ez & B1 & B2).
    injection Ez as <- <-. auto.
Qed.

Lemma stored_1d (p M N : nat) :
  [p] = [M; N] \/ Np.broadcast_shapes [p] [M; N] = Some [M; N] ->
  Np.bc1 p N N.
Proof.
  intros [E | E]; [discriminate E|].
  apply broadcast_shapes_1_2 in E as (z2 & Ez & B2).
  injection Ez as <-. auto.
Qed.

Lemma set_geostrophic_velocity_ok_shape (M N : nat) (m : Metrics)
  (umask vmask : ndarray bool) (vel vel' : Velocity) (zeta : masked) :
  shape (p_m m) = [M; N] -> shape (p_n m) = [M; N] ->
  shape (upad vel) = [M; N] -> shape (vpad vel) = [M; N] ->
  set_geostrophic_velocity m umask vmask vel zeta = Ok vel' ->
  shape (ma_data zeta) = [M; N].
Proof.
  intros Hpm Hpn Hup Hvp H. unfold set_geostrophic_velocity in H. bind_inv H.
  clear H E9 E20.
  (* the shapes of the slices *)
  apply tail0_ok in E as (d0 & rest & Hz & Sa).
  apply init0_ok in E0 as (? & ? & Hz0 & Sa0). rewrite Hz in Hz0. injection Hz0 as <- <-.
  apply tail1_ok in E10 as (? & d1 & rest1 & Hz1 & Sa10).
  rewrite Hz in Hz1. injection Hz1 as <- ->.
  apply init1_ok in E11 as (? & ? & ? & Hz1 & Sa11).
  rewrite Hz in Hz1. injection Hz1 as <- <- <-.
  apply tail0_ok in E1 as (? & ? & Hn & Sa1). rewrite Hpn in Hn. injection Hn as <- <-.
  apply init0_ok in E2 as (? & ? & Hn & Sa2). rewrite Hpn in Hn. injection Hn as <- <-.
  apply tail1_ok in E12 as (? & ? & ? & Hm & Sa12).
  rewrite Hpm in Hm. injection Hm as <- <- <-.
  apply init1_ok in E13 as (? & ? & ? & Hm & Sa13).
  rewrite Hpm in Hm. injection Hm as <- <- <-.
  (* the shapes of the operands of the two products *)
  apply binop_ok_shape in E3, E4, E14, E15.
  rewrite Sa, Sa0, broadcast_shapes_refl in E3. injection E3 as S3.
  rewrite Sa1, Sa2, broadcast_shapes_refl in E4. injection E4 as S4.
  rewrite Sa10, Sa11, broadcast_shapes_refl in E14. injection E14 as S14.
  rewrite Sa12, Sa13, broadcast_shapes_refl in E15. injection E15 as S15.
  apply binop_ok_shape in E5, E16. cbn [Np.map shape] in E5, E16.
  rewrite <- S3, <- S4 in E5. rewrite <- S14, <- S15 in E16.
  (* the staggering back to rho points asks for two axes *)
  apply Ma_array_ok in E6, E17.
  apply v2rho_2d_ok in E7 as (va & vb & S5 & Ha & S7). rewrite E6 in S5.
  apply u2rho_2d_ok in E18 as (ua & ub & S16 & Hb' & S18). rewrite E17 in S16.
  rewrite S5 in E5. rewrite S16 in E16.
  pose proof (broadcast_shapes_length _ _ _ E5) as L. cbn in L.
  destruct rest1 as [|? ?]; [|cbn in L; lia]. clear L.
  apply broadcast_shapes_2_2 in E5 as (z1 & z2 & Ez & B1 & B2).
  injection Ez as <- <-.
  apply broadcast_shapes_2_2 in E16 as (z1 & z2 & Ez & B3 & B4).
  injection Ez as <- <-.
  (* the results are stored in arrays of the shape of the metrics *)
  apply set_all_ok in E8, E19. rewrite Hup, S7 in E8. rewrite Hvp, S18 in E19.
  cbn [filter] in E8, E19.
  replace (va + 1 =? 1) with false in E8 by (symmetry; apply Nat.eqb_neq; lia).
  replace (ub + 1 =? 1) with false in E19 by (symmetry; apply Nat.eqb_neq; lia).
  cbn [negb] in E8, E19.
  rewrite Hz.
  assert (F8 : (vb <> 1 /\ Np.bc1 (va + 1) M M /\ Np.bc1 vb N N)
               \/ (vb = 1 /\ Np.bc1 (va + 1) N N)).
  { destruct (Nat.eqb_spec vb 1) as [Eb|Eb]; cbn [negb] in E8.
    - right. split; [exact Eb|]. now apply stored_1d in E8.
    - left. split; [exact Eb|]. now apply stored_2d in E8. }
  assert (F19 : (ua <> 1 /\ Np.bc1 ua M M /\ Np.bc1 (ub + 1) N N)
                \/ (ua = 1 /\ Np.bc1 (ub + 1) N N)).
  { destruct (Nat.eqb_spec ua 1) as [Ea|Ea]; cbn [negb] in E19.
    - right. split; [exact Ea|]. now apply stored_1d in E19.
    - left. split; [exact Ea|]. now apply stored_2d in E19. }
  clear - B1 B2 B3 B4 Ha Hb' F8 F19. unfold Np.bc1 in *.
  assert (N8 : va + 1 = M /\ vb = N /\ vb <> 1) by (clear B1 B3 B4 F19 Hb'; lia).
  clear F8.
  assert (N19 : ua = M /\ ub + 1 = N /\ ua <> 1) by (clear B1 B2 B4; lia).
  clear F19.
  assert (H0 : d0 = M) by (clear B2 B4; lia).
  assert (H1 : d1 = N) by (clear B1 B3; lia).
  subst. reflexivity.
Qed.

(** *** The exceptions of the array operations *)

Lemma bind_err {A B : Type} (r : result A) (k : A -> result B) (e : exn) :
  bind r k = Err e -> r = Err e \/ exists a, r = Ok a /\ k a = Err e.
Proof.
  destruct r as [a|e']; cbn; [eauto|].
  intros H; injection H as ->. now left.
Qed.

Lemma tail0_err {A : Type} (a : ndarray A) e : Np.tail0 a = Err e -> raised_by_numpy e.
Proof.
  unfold Np.tail0, raised_by_numpy. destruct (shape a); intros H; inversion H; auto.
Qed.

Lemma init0_err {A : Type} (a : ndarray A) e : Np.init0 a = Err e -> raised_by_numpy e.
Proof.
  unfold Np.init0, raised_by_numpy. destruct (shape a); intros H; inversion H; auto.
Qed.

Lemma tail1_err {A : Type} (a : ndarray A) e : Np.tail1 a = Err e -> raised_by_numpy e.
Proof.
  unfold Np.tail1, raised_by_numpy.
  destruct (shape a) as [|? [|? ?]]; intros H; inversion H; auto.
Qed.

Lemma init1_err {A : Type} (a : ndarray A) e : Np.init1 a = Err e -> raised_by_numpy e.
Proof.
  unfold Np.init1, raised_by_numpy.
  destruct (shape a) as [|? [|? ?]]; intros H; inversion H; auto.
Qed.

Lemma broadcast_to_err {A : Type} t (a : ndarray A) e :
  Np.broadcast_to t a = Err e -> raised_by_numpy e.
Proof.
  unfold Np.broadcast_to, raised_by_numpy.
  destruct (Np.shape_eqb (shape a) t); [discriminate|].
  destruct (Np.broadcast_shapes (shape a) t) as [r|];
    [destruct (Np.shape_eqb r t)|]; intros H; inversion H; auto.
Qed.

Create HintDb np_err.
#[local] Hint Resolve tail0_err init0_err tail1_err init1_err broadcast_to_err : np_err.

Ltac err_inv H :=
  repeat match type of H with
    | bind _ _ = Err _ =>
        let a := fresh "a" in
        let E := fresh "E" in
        apply bind_err in H; destruct H as [H | (a & E & H)];
        [solve [eauto with np_err] |]
    end.

Lemma binop_err {A B C : Type} (f : A -> B -> C) a b e :
  Np.binop f a b = Err e -> raised_by_numpy e.
Proof.
  unfold Np.binop. destruct (Np.broadcast_shapes (shape a) (shape b)).
  - intros H. err_inv H. discriminate H.
  - intros H. inversion H. left. reflexivity.
Qed.

Lemma Ma_array_err d m e : Ma.array d m = Err e -> raised_by_numpy e.
Proof.
  unfold Ma.array. destruct (Np.shape_eqb _ _); [discriminate|].
  destruct (_ =? 1); [discriminate|]. destruct (_ =? _); [discriminate|].
  intros H; inversion H. right. right. reflexivity.
Qed.

#[local] Hint Resolve binop_err Ma_array_err : np_err.

Lemma set_inner0_err {A : Type} (t v : ndarray A) e :
  Np.set_inner0 t v = Err e -> raised_by_numpy e.
Proof.
  unfold Np.set_inner0. destruct (shape t).
  - intros H; inversion H. right. left. reflexivity.
  - intros H. err_inv H. discriminate H.
Qed.

Lemma set_inner1_err {A : Type} (t v : ndarray A) e :
  Np.set_inner1 t v = Err e -> raised_by_numpy e.
Proof.
  unfold Np.set_inner1. destruct (shape t) as [|? [|? ?]];
    try (intros H; inversion H; right; left; reflexivity).
  intros H. err_inv H. discriminate H.
Qed.

Lemma copy_first0_err {A : Type} (t : ndarray A) e :
  Np.copy_first0 t = Err e -> raised_by_numpy e.
Proof.
  unfold Np.copy_first0. destruct (shape t) as [|d ?]; [|destruct (d <? 2)];
    intros H; inversion H; right; left; reflexivity.
Qed.

Lemma copy_last0_err {A : Type} (t : ndarray A) e :
  Np.copy_last0 t = Err e -> raised_by_numpy e.
Proof.
  unfold Np.copy_last0. destruct (shape t) as [|d ?]; [|destruct (d <? 2)];
    intros H; inversion H; right; left; reflexivity.
Qed.

Lemma copy_first1_err {A : Type} (t : ndarray A) e :
  Np.copy_first1 t = Err e -> raised_by_numpy e.
Proof.
  unfold Np.copy_first1. destruct (shape t) as [|? [|d ?]]; [| |destruct (d <? 2)];
    intros H; inversion H; right; left; reflexivity.
Qed.

Lemma copy_last1_err {A : Type} (t : ndarray A) e :
  Np.copy_last1 t = Err e -> raised_by_numpy e.
Proof.
  unfold Np.copy_last1. destruct (shape t) as [|? [|d ?]]; [| |destruct (d <? 2)];
    intros H; inversion H; right; left; reflexivity.
Qed.

Lemma set_all_err {A : Type} (t v : ndarray A) e :
  Np.set_all t v = Err e -> raised_by_numpy e.
Proof. unfold Np.set_all. intros H. err_inv H. discriminate H. Qed.

Lemma inplace_err {A : Type} (f : A -> A -> A) (t v : ndarray A) e :
  Np.inplace f t v = Err e -> raised_by_numpy e.
Proof. unfold Np.inplace. intros H. err_inv H. discriminate H. Qed.

#[local] Hint Resolve set_inner0_err set_inner1_err copy_first0_err copy_last0_err
  copy_first1_err copy_last1_err set_all_err inplace_err : np_err.

Lemma lift_err f g a e :
  (forall x e, f x = Err e -> raised_by_numpy e) ->
  (forall x e, g x = Err e -> raised_by_numpy e) ->
  Ma.lift f g a = Err e -> raised_by_numpy e.
Proof.
  intros Hf Hg. unfold Ma.lift. intros H.
  apply bind_err in H as [H | (d & _ & H)]; [eauto|].
  apply bind_err in H as [H | (m & _ & H)]; [eauto|]. discriminate H.
Qed.

Lemma half_interp_masked_err (a b : masked) e :
  half_interp a b = Err e -> raised_by_numpy e.
Proof.
  unfold half_interp. cbn [al_add masked_like]. unfold Ma.binop. intros H.
  apply bind_err in H as [H | (s & _ & H)]; [|discriminate H].
  err_inv H. discriminate H.
Qed.

Lemma v2rho_2d_err (x : masked) e : v2rho_2d x = Err e -> raised_by_numpy e.
Proof.
  unfold v2rho_2d. cbn [al_shape masked_like].
  destruct (shape (ma_data x)) as [|a [|b [|? ?]]];
    try (intros H; inversion H; left; reflexivity).
  unfold vv2vr. cbn [al_init0 al_tail0 masked_like]. intros H.
  apply bind_err in H as [H | (a0 & _ & H)];
    [eapply lift_err; [apply init0_err | apply init0_err | exact H]|].
  apply bind_err in H as [H | (b0 & _ & H)];
    [eapply lift_err; [apply tail0_err | apply tail0_err | exact H]|].
  apply bind_err in H as [H | (h & _ & H)]; [eapply half_interp_masked_err; exact H|].
  err_inv H. discriminate H.
Qed.

Lemma u2rho_2d_err (x : masked) e : u2rho_2d x = Err e -> raised_by_numpy e.
Proof.
  unfold u2rho_2d. cbn [al_shape masked_like].
  destruct (shape (ma_data x)) as [|a [|b [|? ?]]];
    try (intros H; inversion H; left; reflexivity).
  unfold uu2ur. cbn [al_init1 al_tail1 masked_like]. intros H.
  apply bind_err in H as [H | (a0 & _ & H)];
    [eapply lift_err; [apply init1_err | apply init1_err | exact H]|].
  apply bind_err in H as [H | (b0 & _ & H)];
    [eapply lift_err; [apply tail1_err | apply tail1_err | exact H]|].
  apply bind_err in H as [H | (h & _ & H)]; [eapply half_interp_masked_err; exact H|].
  err_inv H. discriminate H.
Qed.

#[local] Hint Resolve v2rho_2d_err u2rho_2d_err : np_err.

Lemma set_geostrophic_velocity_err m umask vmask vel zeta e :
  set_geostrophic_velocity m umask vmask vel zeta = Err e -> raised_by_numpy e.
Proof.
  unfold set_geostrophic_velocity. intros H. err_inv H. discriminate H.
Qed.

(** Whatever the masks, a field whose shape is not the shape of the metrics
    (and of [upad] and [vpad]) makes the call raise; the exception is one of
    numpy's, there being no check of the shape in the method itself. *)
Theorem velocity_of_a_mismatched_field_raises (M N : nat) (m : Metrics)
  (umask vmask : ndarray bool) (vel : Velocity) (zeta : masked) :
  shape (p_m m) = [M; N] -> shape (p_n m) = [M; N] ->
  shape (upad vel) = [M; N] -> shape (vpad vel) = [M; N] ->
  shape (ma_data zeta) <> [M; N] ->
  exists e, set_geostrophic_velocity m umask vmask vel zeta = Err e /\
            raised_by_numpy e.
Proof.
  intros Hpm Hpn Hup Hvp Hz.
  destruct (set_geostrophic_velocity m umask vmask vel zeta) as [vel'|e] eqn:E.
  - exfalso. apply Hz.
    eapply set_geostrophic_velocity_ok_shape; eassumption.
  - exists e. split; [reflexivity|].
    eapply set_geostrophic_velocity_err; eassumption.
Qed.

Lemma velocity_of_a_mismatched_field_raises_witness :
  exists e,
    set_geostrophic_velocity
      (mkMetrics (Np.full [4; 4] (Fin 1)) (Np.full [4; 4] (Fin 1))
                 (Np.full [4; 4] (Fin 1)) (Np.full [4; 4] (Fin 1))
                 (Np.full [4; 4] (Fin 1)) (Np.full [4; 4] (Fin 1)))
      (Np.full [4; 3] false) (Np.full [3; 4] false)
      (mkVelocity (Np.full [4; 4] (Fin 0)) (Np.full [4; 4] (Fin 0)))
      (mkma (Np.full [3; 3] (Fin 5)) (Np.full [3; 3] false)) = Err e /\
    raised_by_numpy e.
Proof.
  apply (velocity_of_a_mismatched_field_raises 4 4); try reflexivity.
  cbn. intros H. discriminate H.
Defined.

End ShapeMismatch.


(** ** Padding and unpadding of a window *)

Section Padding.
Local Open Scope Z_scope.

Ltac unfold_padding :=
  unfold unpadded_shape, padded_shape, window_shape, view_shape,
    Slice.length, Slice.indices, Slice.adjust; cbn [fst snd Slice.start Slice.stop
    slice_i slice_j slice_i_pad slice_j_pad slice_i_unpad slice_j_unpad].

Lemma set_index_padding_plain (j0 j1 i0 i1 ny nx pad : Z) :
  set_index_padding (plain_window j0 j1 i0 i1) (ny, nx) pad =
  Ok (mkWindow false (Slice.mk (Some i0) (Some i1)) (Slice.mk (Some j0) (Some j1))
        (Slice.mk (Some (Z.max 0 (i0 - pad))) (Some (Z.min nx (i1 + pad))))
        (Slice.mk (Some (Z.max 0 (j0 - pad))) (Some (Z.min ny (j1 + pad))))
        (Slice.mk (Some (Z.abs pad)) (Some (- Z.abs pad)))
        (Slice.mk (Some pad) (Some (- pad)))).
Proof. reflexivity. Qed.

(** C1, as stated, fails where the padding was clamped: on a 10 x 10 grid with
    pad 2 the window rows [0, 5) are padded to [0, 7), and [slice(2, -2)] of
    7 rows leaves 3 rows, not 5. *)
Lemma C1_unpad_shape_clamped_counterexample :
  ~ (forall j0 j1 i0 i1 ny nx pad w,
        0 <= j0 <= j1 -> j1 <= ny -> 0 <= i0 <= i1 -> i1 <= nx ->
        0 <= pad -> 2 * pad <= ny -> 2 * pad <= nx ->
        set_index_padding (plain_window j0 j1 i0 i1) (ny, nx) pad = Ok w ->
        unpadded_shape w (ny, nx) = window_shape w (ny, nx)).
Proof.
  intro H.
  specialize (H 0 5 3 7 10 10 2 _ ltac:(lia) ltac:(lia) ltac:(lia) ltac:(lia)
                ltac:(lia) ltac:(lia) ltac:(lia) (set_index_padding_plain _ _ _ _ _ _ _)).
  vm_compute in H. discriminate H.
Qed.

(** C1, amended: when the pad is at least 1 and the core window lies at least
    [pad] cells inside the grid on every side, the padding is not clamped and
    the unpad slices give back exactly the shape of the core window. *)
Theorem C1_unpad_shape_inside (j0 j1 i0 i1 ny nx pad : Z) (w : Window) :
  1 <= pad ->
  pad <= j0 -> j0 <= j1 -> j1 + pad <= ny ->
  pad <= i0 -> i0 <= i1 -> i1 + pad <= nx ->
  set_index_padding (plain_window j0 j1 i0 i1) (ny, nx) pad = Ok w ->
  unpadded_shape w (ny, nx) = window_shape w (ny, nx).
Proof.
  intros Hp Hj0 Hj Hj1 Hi0 Hi Hi1 Hw.
  rewrite set_index_padding_plain in Hw. injection Hw as <-.
  unfold_padding.
  f_equal.
  - repeat match goal with |- context [?a <? ?b] => destruct (Z.ltb_spec a b) end; lia.
  - repeat match goal with |- context [?a <? ?b] => destruct (Z.ltb_spec a b) end; lia.
Qed.

Lemma C1_unpad_shape_inside_witness :
  exists w, set_index_padding (plain_window 3 6 2 7) (10, 10) 2 = Ok w /\
            unpadded_shape w (10, 10) = window_shape w (10, 10).
Proof.
  eexists. split; [reflexivity |].
  apply (C1_unpad_shape_inside 3 6 2 7 10 10 2); [lia..| reflexivity].
Defined.

End Padding.


(** ** The padding at its edges *)

Section PaddingEdges.
Local Open Scope Z_scope.

Ltac unfold_views :=
  unfold unpadded_shape, padded_shape, window_shape, view_shape,
    Slice.length, Slice.indices, Slice.adjust; cbn [fst snd Slice.start Slice.stop
    slice_i slice_j slice_i_pad slice_j_pad slice_i_unpad slice_j_unpad].

Ltac split_ltb :=
  repeat match goal with |- context [?a <? ?b] => destruct (Z.ltb_spec a b) end.

(** What [set_index_padding] returns when it returns. *)
Lemma set_index_padding_ok (self w : Window) (lon_shape : Z * Z) (pad : Z) :
  set_index_padding self lon_shape pad = Ok w ->
  exists j0 i0,
    Slice.start (slice_j self) = Some j0 /\ Slice.start (slice_i self) = Some i0 /\
    w = mkWindow (zero_crossing self) (slice_i self) (slice_j self)
          (Slice.mk (Some (Z.max 0 (i0 - (if zero_crossing self then - pad else pad))))
             (get_end (Slice.stop (slice_i self)) (snd lon_shape)
                (if zero_crossing self then - pad else pad)))
          (Slice.mk (Some (Z.max 0 (j0 - pad)))
             (get_end (Slice.stop (slice_j self)) (fst lon_shape) pad))
          (Slice.mk (Some (Z.abs (if zero_crossing self then - pad else pad)))
             (Some (- Z.abs (if zero_crossing self then - pad else pad))))
          (Slice.mk (Some pad) (Some (- pad))).
Proof.
  unfold set_index_padding, get_str.
  destruct (Slice.start (slice_j self)) as [j0|]; [|discriminate].
  destruct (Slice.start (slice_i self)) as [i0|]; [|discriminate].
  cbn. intros H. injection H as <-. now exists j0, i0.
Qed.

(** With a pad of zero the unpad slices are [slice(0, -0)], that is
    [slice(0, 0)]: they select nothing, whatever the array they are applied
    to. *)
Theorem unpad_of_pad_zero_is_empty (self w : Window) (lon_shape s : Z * Z) :
  set_index_padding self lon_shape 0 = Ok w ->
  view_shape (fst (view_unpad w)) (snd (view_unpad w)) s = (0, 0).
Proof.
  intros H. apply set_index_padding_ok in H as (j0 & i0 & _ & _ & ->).
  unfold view_unpad. cbn [fst snd slice_j_unpad slice_i_unpad].
  destruct (zero_crossing self); unfold_views; cbn; f_equal; lia.
Qed.

Lemma unpad_of_pad_zero_is_empty_witness :
  exists w, set_index_padding (plain_window 3 6 2 7) (10, 10) 0 = Ok w /\
            view_shape (fst (view_unpad w)) (snd (view_unpad w)) (3, 5) = (0, 0).
Proof.
  eexists. split; [reflexivity |].
  apply (unpad_of_pad_zero_is_empty (plain_window 3 6 2 7) _ (10, 10) (3, 5)).
  reflexivity.
Defined.

(** [set_index_padding] subtracts the pad from the start of each core slice:
    while a start is [None], as it is in a new object, the call raises
    [TypeError]. *)
Theorem set_index_padding_of_an_open_start (self : Window) (lon_shape : Z * Z) (pad : Z) :
  Slice.start (slice_j self) = None \/ Slice.start (slice_i self) = None ->
  set_index_padding self lon_shape pad = Err TypeError.
Proof.
  unfold set_index_padding, get_str.
  intros [H | H]; rewrite H; [reflexivity |].
  now destruct (Slice.start (slice_j self)).
Qed.

Lemma set_index_padding_of_an_open_start_witness :
  set_index_padding init_window (10, 10) 2 = Err TypeError.
Proof.
  apply (set_index_padding_of_an_open_start init_window (10, 10) 2).
  left. reflexivity.
Defined.

(** The number of rows and columns that unpadding gives back, for a window
    inside the grid: each cell by which the padding was clamped at a border of
    the grid is taken from the core window. *)
Theorem unpad_shape_of_a_clamped_window (j0 j1 i0 i1 ny nx pad : Z) (w : Window) :
  1 <= pad ->
  0 <= j0 -> j0 <= j1 -> j1 <= ny ->
  0 <= i0 -> i0 <= i1 -> i1 <= nx ->
  set_index_padding (plain_window j0 j1 i0 i1) (ny, nx) pad = Ok w ->
  unpadded_shape w (ny, nx) =
    (Z.max 0 (j1 - j0 - Z.max 0 (pad - j0) - Z.max 0 (j1 + pad - ny)),
     Z.max 0 (i1 - i0 - Z.max 0 (pad - i0) - Z.max 0 (i1 + pad - nx))) /\
  window_shape w (ny, nx) = (j1 - j0, i1 - i0).
Proof.
  intros Hp Hj0 Hj Hj1 Hi0 Hi Hi1 Hw.
  apply set_index_padding_ok in Hw as (j0' & i0' & Ej & Ei & ->).
  cbn in Ej, Ei. injection Ej as <-. injection Ei as <-.
  cbn [plain_window zero_crossing slice_i slice_j Slice.stop get_end fst snd].
  split; unfold_views; f_equal; split_ltb; lia.
Qed.

Lemma unpad_shape_of_a_clamped_window_witness :
  exists w, set_index_padding (plain_window 0 5 3 7) (10, 10) 2 = Ok w /\
            unpadded_shape w (10, 10) = (3, 4) /\ window_shape w (10, 10) = (5, 4).
Proof.
  eexists. split; [reflexivity |].
  apply (unpad_shape_of_a_clamped_window 0 5 3 7 10 10 2); [lia..| reflexivity].
Defined.

End PaddingEdges.

(** ** Flags of the speed *)

Section SpeedFlags.

Lemma nth_zip_with_orb (a b : list bool) (k : nat) :
  length a = length b ->
  nth k (Np.zip_with orb a b) false = nth k a false || nth k b false.
Proof.
  revert b k. induction a as [|x a IH]; intros [|y b] k H; try discriminate H.
  - now destruct k.
  - destruct k as [|k]; cbn; [reflexivity |]. apply IH. now injection H.
Qed.

Lemma length_revert (m : list bool) (r da : list npfloat) :
  length (Ma.revert m r da) = length r.
Proof.
  revert r da. induction m as [|b m IH]; intros [|x r] [|y da]; cbn; auto.
Qed.

(** The mask and the number of elements of [x ** 2] and [x ** .5] on a masked
    array. *)
Lemma power_flags (f : npfloat -> npfloat) (s : list nat) (a : masked) :
  shaped s (Masked a) ->
  shaped s (Masked (Ma.power f a)) /\
  forall k, nth k (data (ma_mask a)) false = true ->
            nth k (data (ma_mask (Ma.power f a))) false = true.
Proof.
  intros (Hd & Wd & Hm & Wm). unfold Np.wf in *. rewrite Hd in Wd. rewrite Hm in Wm.
  unfold Ma.power. cbn [shaped ma_data ma_mask shape data]. unfold Np.wf. cbn [shape data].
  rewrite Hd, Hm.
  rewrite !length_zip_with, !length_map, !length_revert, !length_map, Wd, Wm, !Nat.min_id.
  repeat split; try reflexivity.
  intros k Hk. rewrite nth_zip_with_orb.
  - now rewrite Hk.
  - now rewrite length_map, length_revert, length_map, Wd, Wm.
Qed.

Lemma as_masked_shaped (s : list nat) (x : anyarray) :
  shaped s x -> shaped s (Masked (as_masked x)).
Proof.
  destruct x as [a|a]; [|exact (fun H => H)].
  intros [Hs Hw]. cbn. unfold Np.wf, Np.full in *. cbn [shape data].
  rewrite repeat_length. rewrite Hs in *. auto.
Qed.

Lemma as_masked_flagged (x : anyarray) (k : nat) :
  flagged x k = true -> nth k (data (ma_mask (as_masked x))) false = true.
Proof. destruct x; cbn; [discriminate | auto]. Qed.

(** The mask of [x ** 2], seen as a masked array. *)
Lemma square_flags (s : list nat) (x : anyarray) :
  shaped s x ->
  shaped s (Masked (as_masked (any_power F.square x))) /\
  forall k, flagged x k = true ->
            nth k (data (ma_mask (as_masked (any_power F.square x)))) false = true.
Proof.
  destruct x as [a|a]; cbn [any_power as_masked flagged].
  - intros [Hs Hw]. split; [| intros k Hk; discriminate Hk].
    apply (as_masked_shaped s (Plain (Np.map F.square a))).
    split; [exact Hs |]. unfold Np.wf, Np.map in *. cbn [shape data].
    now rewrite length_map.
  - intros H. apply power_flags. exact H.
Qed.

(** The mask of [a + b] on two masked arrays of one shape. *)
Lemma add_flags (s : list nat) (a b : masked) :
  shaped s (Masked a) -> shaped s (Masked b) ->
  exists r, Ma.binop F.add a b = Ok r /\ shaped s (Masked r) /\
    forall k, nth k (data (ma_mask a)) false = true \/
              nth k (data (ma_mask b)) false = true ->
              nth k (data (ma_mask r)) false = true.
Proof.
  intros (Hda & Wda & Hma & Wma) (Hdb & Wdb & Hmb & Wmb). unfold Np.wf in *.
  rewrite Hda in Wda. rewrite Hma in Wma. rewrite Hdb in Wdb. rewrite Hmb in Wmb.
  unfold Ma.binop.
  rewrite (binop_same_shape F.add) by congruence. cbn [bind shape].
  rewrite (binop_same_shape orb) by congruence. cbn [bind shape data].
  rewrite broadcast_to_same. cbn [bind].
  eexists. split; [reflexivity |]. split.
  - cbn [shaped ma_data ma_mask shape data]. unfold Np.wf. cbn [shape data].
    rewrite length_revert, !length_zip_with, Wda, Wdb, Wma, Wmb, Nat.min_id, Hda, Hma.
    auto.
  - intros k Hk. cbn [ma_mask data]. rewrite nth_zip_with_orb by congruence.
    apply orb_true_iff. exact Hk.
Qed.

(** C3, amended: [uspd] hands the grid mask of the unpad window to
    [numpy.ma], where a set entry flags an invalid element.  For plain
    [u_val] and [v_val] the flags of the speed are exactly that mask, and
    the data are the square roots as computed; for masked ones a cell is
    flagged invalid wherever that mask is set or [u_val] or [v_val] is
    masked. *)
Theorem C3_uspd_flags_where_the_mask_is_set
  (w : Window) (u_val v_val : anyarray) (mask m : ndarray bool) :
  Np.getitem2 (slice_j_unpad w) (slice_i_unpad w) mask = Ok m ->
  Np.wf m ->
  shaped (shape m) u_val -> shaped (shape m) v_val ->
  exists r,
    uspd w u_val v_val mask = Ok r /\
    shape (ma_mask r) = shape m /\
    (forall k, nth k (data m) false = true \/
               flagged u_val k = true \/ flagged v_val k = true ->
               nth k (data (ma_mask r)) false = true) /\
    (forall a b, u_val = Plain a -> v_val = Plain b ->
       ma_mask r = m /\
       ma_data r = Np.map F.sqrt
                     (mkarr (shape m)
                        (Np.zip_with F.add (map F.square (data a))
                           (map F.square (data b))))).
Proof.
  intros Hm Wm Hu Hv. unfold uspd.
  destruct u_val as [a|a], v_val as [b|b].
  1: { destruct Hu as [Ha _], Hv as [Hb _].
       cbn [any_power any_add].
       rewrite binop_same_shape by (cbn [Np.map shape]; congruence).
       cbn [bind any_power]. rewrite Hm. cbn [bind].
       unfold Ma.array. cbn [Np.map shape]. rewrite Ha, shape_eqb_refl.
       eexists. split; [reflexivity |]. cbn [ma_mask ma_data flagged].
       split; [reflexivity |]. split.
       - intros k [Hk | [Hk | Hk]]; [exact Hk | discriminate Hk | discriminate Hk].
       - intros a' b' Ea Eb. injection Ea as <-. injection Eb as <-.
         split; reflexivity. }
  all: cbn [any_power any_add];
       match goal with
       | |- context [Ma.binop F.add (as_masked ?x) (as_masked ?y)] =>
           destruct (add_flags (shape m) (as_masked x) (as_masked y)) as (s & Es & Ss & Fs)
       end;
       [ first [ apply (square_flags _ (Plain _)); assumption
               | apply (square_flags _ (Masked _)); assumption ]
       | first [ apply (square_flags _ (Plain _)); assumption
               | apply (square_flags _ (Masked _)); assumption ]
       | ].
  all: rewrite Es; cbn [bind any_power]; rewrite Hm; cbn [bind];
       destruct (power_flags F.sqrt _ s Ss) as ((Hd & Wd & Hk & Wk) & Fq);
       unfold Np.inplace; rewrite Hk, broadcast_to_same; cbn [bind];
       eexists; (split; [reflexivity |]); cbn [ma_mask ma_data shape data];
       (split; [reflexivity |]); split;
       [ intros k Hor; rewrite nth_zip_with_orb
           by (unfold Np.wf in Wk, Wm; rewrite Wk, Wm, Hk; reflexivity);
         apply orb_true_iff;
         destruct Hor as [Hor | [Hor | Hor]];
         [ right; exact Hor
         | left; apply Fq, Fs; left;
           first [ apply (square_flags _ (Plain _) Hu) | apply (square_flags _ (Masked _) Hu) ];
           exact Hor
         | left; apply Fq, Fs; right;
           first [ apply (square_flags _ (Plain _) Hv) | apply (square_flags _ (Masked _) Hv) ];
           exact Hor ]
       | intros a' b' Ea Eb; discriminate ].
Qed.

Lemma C3_uspd_flags_where_the_mask_is_set_witness :
  exists w m r,
    set_index_padding (plain_window 1 2 1 2) (3, 3)%Z 1 = Ok w /\
    Np.getitem2 (slice_j_unpad w) (slice_i_unpad w)
      (mkarr [3; 3] [true; true; true; true; false; true; true; true; true]) = Ok m /\
    uspd w (Masked (mkma (mkarr [1; 1] [Fin 3]) (mkarr [1; 1] [true])))
           (Plain (mkarr [1; 1] [Fin 4]))
           (mkarr [3; 3] [true; true; true; true; false; true; true; true; true]) = Ok r /\
    data m = [false] /\
    nth 0 (data (ma_mask r)) false = true.
Proof.
  eexists. eexists.
  destruct (C3_uspd_flags_where_the_mask_is_set
              (mkWindow false (Slice.mk (Some 1%Z) (Some 2%Z)) (Slice.mk (Some 1%Z) (Some 2%Z))
                 (Slice.mk (Some 0%Z) (Some 3%Z)) (Slice.mk (Some 0%Z) (Some 3%Z))
                 (Slice.mk (Some 1%Z) (Some (-1)%Z)) (Slice.mk (Some 1%Z) (Some (-1)%Z)))
              (Masked (mkma (mkarr [1; 1] [Fin 3]) (mkarr [1; 1] [true])))
              (Plain (mkarr [1; 1] [Fin 4]))
              (mkarr [3; 3] [true; true; true; true; false; true; true; true; true])
              (mkarr [1; 1] [false])
              eq_refl eq_refl
              (conj eq_refl (conj eq_refl (conj eq_refl eq_refl)))
              (conj eq_refl eq_refl))
    as (r & Hr & _ & Hflag & _).
  exists r. split; [reflexivity |]. split; [reflexivity |]. split; [exact Hr |].
  split; [reflexivity |]. apply Hflag. right. left. reflexivity.
Defined.

End SpeedFlags.

(** ** The error of a field of another shape *)

Section MismatchError.

(** C5, as stated, fails: there is no one error for a field of another
    shape than the metrics.  With metrics of shape (3, 3) a field of shape
    (3, 2) stops the first product on [ValueError], while a 1-d field of
    length 4 gets through the first half by broadcasting and stops on
    [IndexError] at [zeta.data[:, 1:]]. *)
Lemma C5_no_shape_mismatch_error_counterexample :
  ~ (exists ShapeMismatch : exn,
       forall (m : Metrics) (umask vmask : ndarray bool) (vel : Velocity) (zeta : masked),
         shape (p_n m) = shape (p_m m) -> shape (gof m) = shape (p_m m) ->
         shape (ma_data zeta) <> shape (p_m m) ->
         set_geostrophic_velocity m umask vmask vel zeta = Err ShapeMismatch).
Proof.
  intros [e H].
  pose (m := mkMetrics (Np.full [3; 3] (Fin 1)) (Np.full [3; 3] (Fin 1))
                       (Np.full [3; 3] (Fin 1)) (Np.full [3; 3] (Fin 1))
                       (Np.full [3; 3] (Fin 1)) (Np.full [3; 3] (Fin 1))).
  pose (vel := mkVelocity (Np.full [3; 3] (Fin 0)) (Np.full [3; 3] (Fin 0))).
  pose proof (H m (Np.full [3; 2] false) (Np.full [2; 3] false) vel
                (mkma (Np.full [3; 2] (Fin 5)) (Np.full [3; 2] false))
                eq_refl eq_refl ltac:(cbn; discriminate)) as H1.
  pose proof (H m (Np.full [3; 2] false) (Np.full [2; 3] false) vel
                (mkma (Np.full [4] (Fin 5)) (Np.full [4] false))
                eq_refl eq_refl ltac:(cbn; discriminate)) as H2.
  lazy in H1, H2. congruence.
Qed.

(** C5, amended: a field whose shape is not the shape of the metrics [p_m]
    and [p_n] (and of [upad] and [vpad]) never gives a result, whatever
    [gof] and the masks are: the call raises [ValueError], [IndexError] or
    [MaskError], whichever numpy's array operations meet first on these
    shapes. *)
Theorem C5_mismatched_field_gives_no_result (M N : nat) (m : Metrics)
  (umask vmask : ndarray bool) (vel : Velocity) (zeta : masked) :
  shape (p_m m) = [M; N] -> shape (p_n m) = [M; N] ->
  shape (upad vel) = [M; N] -> shape (vpad vel) = [M; N] ->
  shape (ma_data zeta) <> [M; N] ->
  (forall vel', set_geostrophic_velocity m umask vmask vel zeta <> Ok vel') /\
  (exists e, set_geostrophic_velocity m umask vmask vel zeta = Err e /\
             (e = ValueError \/ e = IndexError \/ e = MaskError)).
Proof.
  intros Hpm Hpn Hup Hvp Hz.
  assert (Hno : forall vel', set_geostrophic_velocity m umask vmask vel zeta <> Ok vel').
  { intros vel' E. apply Hz. revert E. now apply set_geostrophic_velocity_ok_shape. }
  split; [exact Hno |].
  destruct (set_geostrophic_velocity m umask vmask vel zeta) as [vel'|e] eqn:E.
  - now destruct (Hno vel').
  - exists e. split; [reflexivity |].
    now apply (set_geostrophic_velocity_err m umask vmask vel zeta).
Qed.

Lemma C5_mismatched_field_gives_no_result_witness :
  (forall vel',
     set_geostrophic_velocity
       (mkMetrics (Np.full [3; 3] (Fin 1)) (Np.full [3; 3] (Fin 1))
                  (Np.full [3; 3] (Fin 1)) (Np.full [3; 3] (Fin 1))
                  (Np.full [3; 3] (Fin 1)) (Np.full [3; 3] (Fin 1)))
       (Np.full [3; 2] false) (Np.full [2; 3] false)
       (mkVelocity (Np.full [3; 3] (Fin 0)) (Np.full [3; 3] (Fin 0)))
       (mkma (Np.full [3; 1] (Fin 5)) (Np.full [3; 1] false)) <> Ok vel') /\
  (exists e,
     set_geostrophic_velocity
       (mkMetrics (Np.full [3; 3] (Fin 1)) (Np.full [3; 3] (Fin 1))
                  (Np.full [3; 3] (Fin 1)) (Np.full [3; 3] (Fin 1))
                  (Np.full [3; 3] (Fin 1)) (Np.full [3; 3] (Fin 1)))
       (Np.full [3; 2] false) (Np.full [2; 3] false)
       (mkVelocity (Np.full [3; 3] (Fin 0)) (Np.full [3; 3] (Fin 0)))
       (mkma (Np.full [3; 1] (Fin 5)) (Np.full [3; 1] false)) = Err e /\
     (e = ValueError \/ e = IndexError \/ e = MaskError)).
Proof.
  apply (C5_mismatched_field_gives_no_result 3 3); try reflexivity.
  cbn. intros H. discriminate H.
Defined.

End MismatchError.

(** ** Index arrays of a window that crosses the zero meridian *)

Section IndexInverse.
Local Open Scope Z_scope.

Lemma length_count_from (a : Z) (n : nat) : length (count_from a n) = n.
Proof. revert a. induction n as [|n IH]; intros a; cbn; [reflexivity | now rewrite IH]. Qed.



Lemma skipn_count_from (k : nat) (a : Z) (n : nat) :
  skipn k (count_from a n) = count_from (a + Z.of_nat k) (n - k).
Proof.
  revert a n. induction k as [|k IH]; intros a n.
  - rewrite Z.add_0_r, Nat.sub_0_r. reflexivity.
  - destruct n as [|n]; [reflexivity |].
    cbn [skipn count_from Nat.sub]. rewrite IH. f_equal. lia.
Qed.

Lemma firstn_count_from (k : nat) (a : Z) (n : nat) :
  firstn k (count_from a n) = count_from a (Nat.min k n).
Proof.
  revert a n. induction k as [|k IH]; intros a n; [reflexivity |].
  destruct n as [|n]; [reflexivity |].
  cbn [firstn count_from Nat.min]. now rewrite IH.
Qed.

Lemma length_arange (a b : Z) : Z.of_nat (length (arange a b)) = Z.max 0 (b - a).
Proof. unfold arange. rewrite length_count_from. lia. Qed.




Lemma length_positions_of (n : Z) (l cols : list Z) :
  positions_of n l = Ok cols -> length cols = length l.
Proof.
  revert cols. induction l as [|k l IH]; intros cols; cbn.
  - intros H. injection H as <-. reflexivity.
  - destruct (position n k) as [p|]; [|discriminate]. cbn.
    destruct (positions_of n l) as [ps|]; [|discriminate]. cbn.
    intros H. injection H as <-. cbn. f_equal. now apply IH.
Qed.

Lemma positions_of_skipn (n : Z) (k : nat) (l cols : list Z) :
  positions_of n l = Ok cols -> positions_of n (skipn k l) = Ok (skipn k cols).
Proof.
  revert l cols. induction k as [|k IH]; intros l cols; [now cbn |].
  destruct l as [|x l]; cbn.
  - intros H. injection H as <-. reflexivity.
  - destruct (position n x) as [p|]; [|discriminate]. cbn.
    destruct (positions_of n l) as [ps|] eqn:E; [|discriminate]. cbn.
    intros H. injection H as <-. cbn. now apply IH.
Qed.

Lemma positions_of_firstn (n : Z) (k : nat) (l cols : list Z) :
  positions_of n l = Ok cols -> positions_of n (firstn k l) = Ok (firstn k cols).
Proof.
  revert l cols. induction k as [|k IH]; intros l cols; [now cbn |].
  destruct l as [|x l]; cbn.
  - intros H. injection H as <-. reflexivity.
  - destruct (position n x) as [p|]; [|discriminate]. cbn.
    destruct (positions_of n l) as [ps|] eqn:E; [|discriminate]. cbn.
    intros H. injection H as <-. cbn. now rewrite (IH l ps E).
Qed.

(** Slicing the index array and then looking the columns up is slicing the
    columns. *)
Lemma positions_of_take_slice (n : Z) (s : Slice.t) (l cols : list Z) :
  positions_of n l = Ok cols ->
  positions_of n (take_slice s l) = Ok (take_slice s cols).
Proof.
  intros H. unfold take_slice. rewrite (length_positions_of _ _ _ H).
  destruct (Slice.indices s (Z.of_nat (length l))) as [a b].
  now apply positions_of_firstn, positions_of_skipn.
Qed.

(** [l[pad:-pad]] of a list that has [pad] more entries than [core] at each
    end. *)
Lemma take_slice_unpad (pad : Z) (before core after : list Z) :
  1 <= pad ->
  Z.of_nat (length before) = pad -> Z.of_nat (length after) = pad ->
  take_slice (Slice.mk (Some pad) (Some (- pad))) (before ++ core ++ after) = core.
Proof.
  intros Hp Hb Ha. unfold take_slice, Slice.indices, Slice.adjust.
  cbn [Slice.start Slice.stop].
  rewrite !length_app, !Nat2Z.inj_add, Hb, Ha.
  destruct (Z.ltb_spec pad 0); [lia |].
  destruct (Z.ltb_spec (- pad) 0); [| lia].
  replace (Z.to_nat (Z.min pad (pad + (Z.of_nat (length core) + pad))))
    with (length before + 0)%nat by lia.
  rewrite skipn_app, Nat.add_0_r, skipn_all, Nat.sub_diag. cbn [app skipn].
  replace (Z.to_nat _) with (length core + 0)%nat by lia.
  rewrite firstn_app_2. cbn [firstn]. apply app_nil_r.
Qed.

Lemma count_from_add (a : Z) (n m : nat) :
  count_from a (n + m) = count_from a n ++ count_from (a + Z.of_nat n) m.
Proof.
  revert a. induction n as [|n IH]; intros a.
  - cbn. now rewrite Z.add_0_r.
  - cbn [Nat.add count_from app]. rewrite IH. do 3 f_equal. lia.
Qed.

(** Where the window crosses the zero meridian, [view_pad] and [view] index
    the columns with arrays, and [slice(pad, -pad)] of the padded index array
    is the index array of the core window: unpadding gives back exactly the
    columns of the core window, in the same order. *)
Theorem zero_crossing_unpad_gives_the_core_columns
  (self w : Window) (ny nx pad i0 i1 : Z) :
  zero_crossing self = true ->
  slice_i self = Slice.mk (Some i0) (Some i1) ->
  1 <= pad -> 0 <= i0 -> i1 <= nx ->
  set_index_padding self (ny, nx) pad = Ok w ->
  exists padded core,
    view_pad w (ny, nx) = Ok (slice_j_pad w, ByArray padded) /\
    view w (ny, nx) = Ok (slice_j w, ByArray core) /\
    take_slice (snd (view_unpad w)) padded = core /\
    forall columns,
      selected (ByArray padded) nx = Ok columns ->
      selected (ByArray core) nx = Ok (take_slice (snd (view_unpad w)) columns).
Proof.
  intros Hz Hs Hp H0 H1 Hw.
  apply set_index_padding_ok in Hw as (j0 & i0' & Ej & Ei & ->).
  rewrite Hs in Ei. cbn in Ei. injection Ei as <-.
  rewrite Hz, Hs.
  unfold view_pad, view, view_unpad, create_index_inverse.
  cbn [zero_crossing slice_i slice_i_pad slice_j slice_j_pad slice_i_unpad
       slice_j_unpad negb Slice.start Slice.stop get_end fst snd bind].
  do 2 eexists. split; [reflexivity |]. split; [reflexivity |].
  assert (E : take_slice (Slice.mk (Some (Z.abs (- pad))) (Some (- Z.abs (- pad))))
                (arange (Z.min nx (i1 + - pad)) nx ++ arange 0 (Z.max 0 (i0 - - pad)))
              = arange i1 nx ++ arange 0 i0).
  { replace (Z.abs (- pad)) with pad by lia.
    unfold arange.
    replace (Z.to_nat (nx - Z.min nx (i1 + - pad)))
      with (Z.to_nat pad + Z.to_nat (nx - i1))%nat by lia.
    replace (Z.to_nat (Z.max 0 (i0 - - pad) - 0))
      with (Z.to_nat (i0 - 0) + Z.to_nat pad)%nat by lia.
    rewrite !count_from_add, <- !app_assoc.
    replace (Z.min nx (i1 + - pad) + Z.of_nat (Z.to_nat pad)) with i1 by lia.
    rewrite (app_assoc (count_from i1 _)).
    apply take_slice_unpad; rewrite ?length_count_from; lia. }
  split; [exact E |].
  intros columns Hc. cbn [selected] in *. rewrite <- E.
  now apply positions_of_take_slice.
Qed.

Lemma zero_crossing_unpad_gives_the_core_columns_witness :
  exists w padded core,
    set_index_padding
      (mkWindow true (Slice.mk (Some 2) (Some 8)) (Slice.mk (Some 3) (Some 6))
         Slice.all Slice.all Slice.all Slice.all) (10, 10) 2 = Ok w /\
    view_pad w (10, 10) = Ok (slice_j_pad w, ByArray padded) /\
    view w (10, 10) = Ok (slice_j w, ByArray core) /\
    take_slice (snd (view_unpad w)) padded = core /\
    forall columns,
      selected (ByArray padded) 10 = Ok columns ->
      selected (ByArray core) 10 = Ok (take_slice (snd (view_unpad w)) columns).
Proof.
  eexists.
  destruct (zero_crossing_unpad_gives_the_core_columns
              (mkWindow true (Slice.mk (Some 2) (Some 8)) (Slice.mk (Some 3) (Some 6))
                 Slice.all Slice.all Slice.all Slice.all) _ 10 10 2 2 8
              eq_refl eq_refl ltac:(lia) ltac:(lia) ltac:(lia) eq_refl)
    as (padded & core & H).
  exists padded, core. split; [reflexivity | exact H].
Defined.

(** [set_u_v_eke] makes [upad] (and [vpad]) of the shape of the padded view
    of the grid, with and without zero crossing. *)
Theorem set_u_v_eke_has_the_padded_shape
  (self w : Window) (ny nx pad j0 j1 i0 i1 : Z) :
  slice_j self = Slice.mk (Some j0) (Some j1) ->
  slice_i self = Slice.mk (Some i0) (Some i1) ->
  0 <= pad -> 0 <= j0 -> j0 <= j1 -> j1 <= ny ->
  (zero_crossing self = false -> 0 <= i0 /\ i0 <= i1 /\ i1 <= nx) ->
  set_index_padding self (ny, nx) pad = Ok w ->
  exists v,
    view_pad w (ny, nx) = Ok v /\
    set_u_v_eke w (ny, nx) = Ok (indexed_shape v (ny, nx)).
Proof.
  intros Hj Hi Hp Hj0 Hj01 Hj1 Hc Hw.
  apply set_index_padding_ok in Hw as (j0' & i0' & Ej & Ei & ->).
  rewrite Hj in Ej. rewrite Hi in Ei. cbn in Ej, Ei.
  injection Ej as <-. injection Ei as <-. rewrite Hj, Hi.
  unfold view_pad, set_u_v_eke, create_index_inverse, sub_bounds, empty, concatenate1.
  destruct (zero_crossing self);
    cbn [zero_crossing slice_i slice_i_pad slice_j slice_j_pad negb
         Slice.start Slice.stop get_end fst snd bind].
  - eexists. split; [reflexivity |].
    destruct (Z.ltb_spec (Z.min ny (j1 + pad) - Z.max 0 (j0 - pad)) 0); [lia |].
    destruct (Z.ltb_spec (Z.max 0 (i0 - - pad)) 0); [lia |].
    destruct (Z.ltb_spec (nx - Z.min nx (i1 + - pad)) 0); [lia |].
    cbn [orb bind fst snd]. rewrite Z.eqb_refl.
    unfold indexed_shape, Slice.length, Slice.indices, Slice.adjust.
    cbn [fst snd Slice.start Slice.stop].
    rewrite length_app, Nat2Z.inj_add, !length_arange.
    do 2 f_equal;
      repeat match goal with |- context [?a <? ?b] => destruct (Z.ltb_spec a b) end; lia.
  - destruct (Hc eq_refl) as (Hi0 & Hi01 & Hi1).
    eexists. split; [reflexivity |].
    destruct (Z.ltb_spec (Z.min ny (j1 + pad) - Z.max 0 (j0 - pad)) 0); [lia |].
    destruct (Z.ltb_spec (Z.min nx (i1 + pad) - Z.max 0 (i0 - pad)) 0); [lia |].
    cbn [orb bind fst snd].
    unfold indexed_shape, Slice.length, Slice.indices, Slice.adjust.
    cbn [fst snd Slice.start Slice.stop].
    do 2 f_equal;
      repeat match goal with |- context [?a <? ?b] => destruct (Z.ltb_spec a b) end; lia.
Qed.

Lemma set_u_v_eke_has_the_padded_shape_witness :
  exists w v,
    set_index_padding (plain_window 3 6 2 8) (10, 10) 2 = Ok w /\
    view_pad w (10, 10) = Ok v /\
    set_u_v_eke w (10, 10) = Ok (indexed_shape v (10, 10)).
Proof.
  eexists.
  destruct (set_u_v_eke_has_the_padded_shape
              (plain_window 3 6 2 8) _ 10 10 2 3 6 2 8
              eq_refl eq_refl ltac:(lia) ltac:(lia) ltac:(lia) ltac:(lia)
              ltac:(intros _; lia) eq_refl)
    as (v & H).
  exists v. split; [reflexivity | exact H].
Defined.

End IndexInverse.

(** ** The distance in binary64 *)

Section Binary64.
Import Floats.PrimFloat Floats.SpecFloat Floats.FloatOps Floats.FloatAxioms.
Local Open Scope float_scope.

(** *** The specification of the operations *)

Lemma Prim2SF_nan (x : float) : Prim2SF x = S754_nan -> x = nan.
Proof. intros H. apply Prim2SF_inj. rewrite H. reflexivity. Qed.


(** The square root of a number below zero is nan. *)
Lemma sqrt_negative (z : float) : (z <? 0) = true -> sqrt z = nan.
Proof.
  rewrite ltb_spec. change (Prim2SF 0) with (S754_zero false). intros H.
  apply Prim2SF_nan. rewrite sqrt_spec.
  destruct (Prim2SF z) as [s|s| |s m e]; cbn in H; try discriminate H;
    destruct s; try discriminate H; reflexivity.
Qed.















(** *** The square roots *)

(** C7, as stated, fails: for the points (0, 8) and (180, -8), which are
    antipodal, the sum of the squares is rounded to 1.0000000000000002, the
    argument [1 - a_val] of the second square root is negative, and the
    distance is nan; nothing clamps [a_val]. *)
Lemma C7_antipodal_points_counterexample :
  B64.a_val B64.rounded_values 0 8 180 (-8) = 0x1.0000000000001p+0 /\
  (1 - B64.a_val B64.rounded_values 0 8 180 (-8) <? 0) = true /\
  B64.haversine_dist B64.rounded_values 0 8 180 (-8) = nan.
Proof. repeat split; vm_compute; reflexivity. Qed.

(** C7, amended: [haversine_dist] takes the square roots of [a_val] and of
    [1 - a_val] as they are computed; whenever rounding has pushed [a_val]
    above 1, so that [1 - a_val] is negative, the distance is nan (for an
    arc tangent that gives nan on nan, as the C library's does). *)
Theorem C7_no_clamp_before_the_square_roots
  (L : B64.libm) (lon1 lat1 lon2 lat2 : float) :
  (forall y, B64.c_atan2 L y nan = nan) ->
  (1 - B64.a_val L lon1 lat1 lon2 lat2 <? 0) = true ->
  B64.haversine_dist L lon1 lat1 lon2 lat2 = nan.
Proof.
  intros Hnan Hneg. unfold B64.haversine_dist, B64.c_val.
  rewrite (sqrt_negative _ Hneg), Hnan. reflexivity.
Qed.

Lemma C7_no_clamp_before_the_square_roots_witness :
  B64.haversine_dist B64.rounded_values 0 8 180 (-8) = nan.
Proof.
  apply (C7_no_clamp_before_the_square_roots B64.rounded_values 0 8 180 (-8)).
  - intros y. reflexivity.
  - vm_compute. reflexivity.
Defined.

(** *** The distance of a point to itself and the order of the points *)




End Binary64.
